(** * The product-detail page core: normaliser, fetcher, pricing, coordinator

    A shallow embedding of the decision logic of the repository:
    - [src/lib/api.ts]: [transformProduct], [fetcher], [getQuestions];
    - [src/features/product-offer/ProductOfferInfo.tsx]: the discount;
    - [src/App.tsx]: the page state, its handlers and the detail effect.

    JavaScript values are an inductive type, objects are finite maps from
    property names to values, numbers are binary64 floats (the kernel's
    primitive floats), and the builtins the code calls ([JSON.parse],
    [Math.round], [Array.prototype.sort], ...) are written out as
    functions so that every definition below evaluates. A call that
    can throw returns a [completion]; what is only logged is left out. *)

From Stdlib Require Import ZArith Floats Ascii String.
From stdpp Require Import gmap strings list sorting pretty.

#[local] Set Warnings "-register-all".

Local Open Scope Z_scope.

(* ===================================================================== *)
(** * JavaScript values *)
(* ===================================================================== *)

Inductive JsValue :=
| JUndefined
| JNull
| JBool (b : bool)
| JNum (x : float)
| JStr (s : string)
| JArr (items : list JsValue)
| JObj (fields : gmap string JsValue).

(** [typeof v] *)
Definition typeof (v : JsValue) : string :=
  match v with
  | JUndefined => "undefined"
  | JNull => "object"
  | JBool _ => "boolean"
  | JNum _ => "number"
  | JStr _ => "string"
  | JArr _ | JObj _ => "object"
  end.

(** Truthiness of a number: every number but [0], [-0] and [NaN]. *)
Definition number_truthy (x : float) : bool :=
  negb (PrimFloat.is_zero x) && negb (PrimFloat.is_nan x).

(** [ToBoolean]: what [!v], [v && _], [v || _] and [v ? _ : _] test. *)
Definition ToBoolean (v : JsValue) : bool :=
  match v with
  | JUndefined | JNull => false
  | JBool b => b
  | JNum x => number_truthy x
  | JStr s => negb (String.eqb s EmptyString)
  | JArr _ | JObj _ => true
  end.

(** [a || b] *)
Definition js_or (a b : JsValue) : JsValue := if ToBoolean a then a else b.

(** [a ?? b] *)
Definition js_nullish (a b : JsValue) : JsValue :=
  match a with
  | JUndefined | JNull => b
  | _ => a
  end.

Definition Array_isArray (v : JsValue) : bool :=
  match v with JArr _ => true | _ => false end.

Definition float_of_Z (n : Z) : float :=
  SF2Prim (binary_normalize prec emax n 0 false).

Definition is_digit (c : ascii) : bool :=
  let n := nat_of_ascii c in (48 <=? n)%nat && (n <=? 57)%nat.

Definition digit_value (c : ascii) : Z := Z.of_nat (nat_of_ascii c) - 48.

Fixpoint digits_value (acc : Z) (s : string) : option Z :=
  match s with
  | EmptyString => Some acc
  | String c rest =>
      if is_digit c then digits_value (10 * acc + digit_value c) rest else None
  end.

(** A property name that is a canonical array index: a decimal numeral
    without a leading zero. *)
Definition array_index (k : string) : option nat :=
  match k with
  | EmptyString => None
  | String "0" EmptyString => Some 0%nat
  | String "0" _ => None
  | _ => Z.to_nat <$> digits_value 0 k
  end.

Fixpoint nth_char (s : string) (i : nat) : option ascii :=
  match s, i with
  | EmptyString, _ => None
  | String c _, O => Some c
  | String _ rest, S i => nth_char rest i
  end.

(** [v[k]] / [v.k] on a value that is neither [null] nor [undefined]
    (on those the access throws, see [fetcher]). *)
Definition js_get (v : JsValue) (k : string) : JsValue :=
  match v with
  | JObj m => default JUndefined (m !! k)
  | JArr l =>
      if String.eqb k "length" then JNum (float_of_Z (Z.of_nat (length l)))
      else match array_index k with
           | Some i => default JUndefined (l !! i)
           | None => JUndefined
           end
  | JStr s =>
      if String.eqb k "length" then JNum (float_of_Z (Z.of_nat (String.length s)))
      else match array_index k with
           | Some i =>
               match nth_char s i with
               | Some c => JStr (String c EmptyString)
               | None => JUndefined
               end
           | None => JUndefined
           end
  | _ => JUndefined
  end.

Fixpoint indexed (i : nat) (l : list JsValue) : list (string * JsValue) :=
  match l with
  | [] => []
  | x :: l' => (pretty i, x) :: indexed (S i) l'
  end.

Fixpoint string_chars (s : string) : list JsValue :=
  match s with
  | EmptyString => []
  | String c rest => JStr (String c EmptyString) :: string_chars rest
  end.

(** The own enumerable properties that an object spread [{...v}] copies. *)
Definition spread (v : JsValue) : gmap string JsValue :=
  match v with
  | JObj m => m
  | JArr l => list_to_map (indexed 0 l)
  | JStr s => list_to_map (indexed 0 (string_chars s))
  | _ => ∅
  end.

(** A thrown value: the error class and the [message] of the error. *)
Inductive ErrorClass := PlainError | TypeError | SyntaxError.

Record JsError := { err_class : ErrorClass; err_message : JsValue }.

(** How a call ends: with a value, or by throwing (rejecting). *)
Inductive completion (A : Type) :=
| Normal (a : A)
| Throw (e : JsError).
Arguments Normal {A} a.
Arguments Throw {A} e.

(* ===================================================================== *)
(** * [JSON.parse] *)
(* ===================================================================== *)

(** Strings are byte strings; a [\uXXXX] escape is stored as the UTF-8
    bytes of its code unit. *)

Definition dquote : ascii := "034".
Definition backslash : ascii := "092".

Inductive token :=
| TLBrace | TRBrace | TLBrack | TRBrack | TComma | TColon
| TString (s : string)
| TWord (w : string).

Inductive lex_state :=
| LIdle
| LWord (acc : list ascii)
| LStr (acc : list ascii)
| LEsc (acc : list ascii)
| LHex (acc : list ascii) (todo : nat) (code : N).

Definition string_of_rev (acc : list ascii) : string :=
  string_of_list_ascii (rev acc).

Definition is_ws (c : ascii) : bool :=
  let n := nat_of_ascii c in
  (n =? 32)%nat || (n =? 9)%nat || (n =? 10)%nat || (n =? 13)%nat.

Definition is_letter (c : ascii) : bool :=
  let n := nat_of_ascii c in
  ((65 <=? n)%nat && (n <=? 90)%nat) || ((97 <=? n)%nat && (n <=? 122)%nat).

Definition is_word_char (c : ascii) : bool :=
  is_digit c || is_letter c || Ascii.eqb c "+" || Ascii.eqb c "-" || Ascii.eqb c ".".

Definition hex_value (c : ascii) : option N :=
  let n := N_of_ascii c in
  if (48 <=? n)%N && (n <=? 57)%N then Some (n - 48)%N
  else if (97 <=? n)%N && (n <=? 102)%N then Some (n - 87)%N
  else if (65 <=? n)%N && (n <=? 70)%N then Some (n - 55)%N
  else None.

(** UTF-8 bytes of a 16-bit code unit, last byte first. *)
Definition utf8_rev (code : N) : list ascii :=
  if (code <? 128)%N then [ascii_of_N code]
  else if (code <? 2048)%N then
    [ascii_of_N (128 + code mod 64); ascii_of_N (192 + code / 64)]
  else
    [ascii_of_N (128 + code mod 64); ascii_of_N (128 + (code / 64) mod 64);
     ascii_of_N (224 + code / 4096)].

Definition lex_idle (c : ascii) : option (lex_state * list token) :=
  if is_ws c then Some (LIdle, [])
  else if Ascii.eqb c "{" then Some (LIdle, [TLBrace])
  else if Ascii.eqb c "}" then Some (LIdle, [TRBrace])
  else if Ascii.eqb c "[" then Some (LIdle, [TLBrack])
  else if Ascii.eqb c "]" then Some (LIdle, [TRBrack])
  else if Ascii.eqb c "," then Some (LIdle, [TComma])
  else if Ascii.eqb c ":" then Some (LIdle, [TColon])
  else if Ascii.eqb c dquote then Some (LStr [], [])
  else if is_word_char c then Some (LWord [c], [])
  else None.

Definition lex_escape (acc : list ascii) (c : ascii) : option lex_state :=
  if Ascii.eqb c dquote then Some (LStr (dquote :: acc))
  else if Ascii.eqb c backslash then Some (LStr (backslash :: acc))
  else if Ascii.eqb c "/" then Some (LStr ("/"%char :: acc))
  else if Ascii.eqb c "b" then Some (LStr ("008"%char :: acc))
  else if Ascii.eqb c "f" then Some (LStr ("012"%char :: acc))
  else if Ascii.eqb c "n" then Some (LStr ("010"%char :: acc))
  else if Ascii.eqb c "r" then Some (LStr ("013"%char :: acc))
  else if Ascii.eqb c "t" then Some (LStr ("009"%char :: acc))
  else if Ascii.eqb c "u" then Some (LHex acc 4 0%N)
  else None.

Definition lex_step (st : lex_state) (c : ascii) : option (lex_state * list token) :=
  match st with
  | LIdle => lex_idle c
  | LWord acc =>
      if is_word_char c then Some (LWord (c :: acc), [])
      else '(st', toks) ← lex_idle c; Some (st', TWord (string_of_rev acc) :: toks)
  | LStr acc =>
      if Ascii.eqb c dquote then Some (LIdle, [TString (string_of_rev acc)])
      else if Ascii.eqb c backslash then Some (LEsc acc, [])
      else if (nat_of_ascii c <? 32)%nat then None
      else Some (LStr (c :: acc), [])
  | LEsc acc => st' ← lex_escape acc c; Some (st', [])
  | LHex acc todo code =>
      d ← hex_value c;
      let code' := (16 * code + d)%N in
      match todo with
      | 1%nat => Some (LStr (utf8_rev code' ++ acc), [])
      | _ => Some (LHex acc (pred todo) code', [])
      end
  end.

Definition lex_end (st : lex_state) : option (list token) :=
  match st with
  | LIdle => Some []
  | LWord acc => Some [TWord (string_of_rev acc)]
  | _ => None
  end.

Fixpoint lex (st : lex_state) (s : string) : option (list token) :=
  match s with
  | EmptyString => lex_end st
  | String c rest =>
      '(st', toks) ← lex_step st c;
      more ← lex st' rest;
      Some (toks ++ more)
  end.

(** Number literals: an optional minus sign, an integer part without a
    leading zero, an optional fraction and an optional exponent, read as
    the decimal [± d_mant * 10 ^ (± d_exp - d_frac)]. *)
Inductive num_phase :=
| NStart | NSign | NZero | NInt | NDot | NFrac | NE | NESign | NExp.

Record decimal := {
  d_neg : bool;
  d_mant : Z;
  d_frac : Z;
  d_eneg : bool;
  d_exp : Z
}.

Definition decimal_zero : decimal :=
  {| d_neg := false; d_mant := 0; d_frac := 0; d_eneg := false; d_exp := 0 |}.

Definition add_int_digit (d : decimal) (c : ascii) : decimal :=
  {| d_neg := d_neg d; d_mant := 10 * d_mant d + digit_value c;
     d_frac := d_frac d; d_eneg := d_eneg d; d_exp := d_exp d |}.

Definition add_frac_digit (d : decimal) (c : ascii) : decimal :=
  {| d_neg := d_neg d; d_mant := 10 * d_mant d + digit_value c;
     d_frac := d_frac d + 1; d_eneg := d_eneg d; d_exp := d_exp d |}.

Definition add_exp_digit (d : decimal) (c : ascii) : decimal :=
  {| d_neg := d_neg d; d_mant := d_mant d; d_frac := d_frac d;
     d_eneg := d_eneg d; d_exp := 10 * d_exp d + digit_value c |}.

Definition set_neg (d : decimal) : decimal :=
  {| d_neg := true; d_mant := d_mant d; d_frac := d_frac d;
     d_eneg := d_eneg d; d_exp := d_exp d |}.

Definition set_eneg (d : decimal) : decimal :=
  {| d_neg := d_neg d; d_mant := d_mant d; d_frac := d_frac d;
     d_eneg := true; d_exp := d_exp d |}.

Definition is_e (c : ascii) : bool := Ascii.eqb c "e" || Ascii.eqb c "E".

Definition num_step (ph : num_phase) (d : decimal) (c : ascii)
  : option (num_phase * decimal) :=
  match ph with
  | NStart =>
      if Ascii.eqb c "-" then Some (NSign, set_neg d)
      else if Ascii.eqb c "0" then Some (NZero, d)
      else if is_digit c then Some (NInt, add_int_digit d c)
      else None
  | NSign =>
      if Ascii.eqb c "0" then Some (NZero, d)
      else if is_digit c then Some (NInt, add_int_digit d c)
      else None
  | NZero =>
      if Ascii.eqb c "." then Some (NDot, d)
      else if is_e c then Some (NE, d)
      else None
  | NInt =>
      if is_digit c then Some (NInt, add_int_digit d c)
      else if Ascii.eqb c "." then Some (NDot, d)
      else if is_e c then Some (NE, d)
      else None
  | NDot => if is_digit c then Some (NFrac, add_frac_digit d c) else None
  | NFrac =>
      if is_digit c then Some (NFrac, add_frac_digit d c)
      else if is_e c then Some (NE, d)
      else None
  | NE =>
      if Ascii.eqb c "+" then Some (NESign, d)
      else if Ascii.eqb c "-" then Some (NESign, set_eneg d)
      else if is_digit c then Some (NExp, add_exp_digit d c)
      else None
  | NESign | NExp => if is_digit c then Some (NExp, add_exp_digit d c) else None
  end.

Fixpoint num_scan (ph : num_phase) (d : decimal) (s : string) : option decimal :=
  match s with
  | EmptyString =>
      match ph with
      | NZero | NInt | NFrac | NExp => Some d
      | _ => None
      end
  | String c rest => '(ph', d') ← num_step ph d c; num_scan ph' d' rest
  end.

(** The binary64 number nearest to a decimal (ties to even). *)
Definition decimal_to_float (d : decimal) : float :=
  let e10 := (if d_eneg d then - d_exp d else d_exp d) - d_frac d in
  match d_mant d with
  | Zpos m =>
      if 0 <=? e10 then
        SF2Prim (binary_normalize prec emax
                   ((if d_neg d then Zneg m else Zpos m) * 10 ^ e10) 0 false)
      else
        SF2Prim (SFdiv prec emax (S754_finite (d_neg d) m 0)
                   (S754_finite false (Z.to_pos (10 ^ (- e10))) 0))
  | _ => if d_neg d then PrimFloat.neg_zero else PrimFloat.zero
  end.

Definition word_value (w : string) : option JsValue :=
  if String.eqb w "true" then Some (JBool true)
  else if String.eqb w "false" then Some (JBool false)
  else if String.eqb w "null" then Some JNull
  else d ← num_scan NStart decimal_zero w; Some (JNum (decimal_to_float d)).

(** The grammar, as a stack machine over the tokens. *)
Inductive arr_state := AStart | AValue | AComma.
Inductive obj_state :=
| OStart | OKey (k : string) | OColon (k : string) | OValue | OComma.

Inductive frame :=
| FArr (st : arr_state) (acc : list JsValue)
| FObj (st : obj_state) (m : gmap string JsValue).

Record parser := { p_stack : list frame; p_result : option JsValue }.

Definition parser_init : parser := {| p_stack := []; p_result := None |}.

(** A complete value arrives where the grammar expects one. *)
Definition push_value (v : JsValue) (p : parser) : option parser :=
  match p_stack p with
  | [] =>
      match p_result p with
      | None => Some {| p_stack := []; p_result := Some v |}
      | Some _ => None
      end
  | FArr (AStart | AComma) acc :: st =>
      Some {| p_stack := FArr AValue (v :: acc) :: st; p_result := p_result p |}
  | FObj (OColon k) m :: st =>
      Some {| p_stack := FObj OValue (<[k := v]> m) :: st; p_result := p_result p |}
  | _ => None
  end.

Definition expects_value (p : parser) : bool :=
  match p_stack p with
  | [] => match p_result p with None => true | Some _ => false end
  | FArr (AStart | AComma) _ :: _ => true
  | FObj (OColon _) _ :: _ => true
  | _ => false
  end.

Definition parse_step (p : parser) (t : token) : option parser :=
  match t with
  | TWord w => v ← word_value w; push_value v p
  | TString s =>
      match p_stack p with
      | FObj (OStart | OComma) m :: st =>
          Some {| p_stack := FObj (OKey s) m :: st; p_result := p_result p |}
      | _ => push_value (JStr s) p
      end
  | TLBrack =>
      if expects_value p
      then Some {| p_stack := FArr AStart [] :: p_stack p; p_result := p_result p |}
      else None
  | TLBrace =>
      if expects_value p
      then Some {| p_stack := FObj OStart ∅ :: p_stack p; p_result := p_result p |}
      else None
  | TRBrack =>
      match p_stack p with
      | FArr (AStart | AValue) acc :: st =>
          push_value (JArr (rev acc)) {| p_stack := st; p_result := p_result p |}
      | _ => None
      end
  | TRBrace =>
      match p_stack p with
      | FObj (OStart | OValue) m :: st =>
          push_value (JObj m) {| p_stack := st; p_result := p_result p |}
      | _ => None
      end
  | TComma =>
      match p_stack p with
      | FArr AValue acc :: st =>
          Some {| p_stack := FArr AComma acc :: st; p_result := p_result p |}
      | FObj OValue m :: st =>
          Some {| p_stack := FObj OComma m :: st; p_result := p_result p |}
      | _ => None
      end
  | TColon =>
      match p_stack p with
      | FObj (OKey k) m :: st =>
          Some {| p_stack := FObj (OColon k) m :: st; p_result := p_result p |}
      | _ => None
      end
  end.

Fixpoint parse_tokens (p : parser) (ts : list token) : option JsValue :=
  match ts with
  | [] => match p_stack p with [] => p_result p | _ => None end
  | t :: ts' => p' ← parse_step p t; parse_tokens p' ts'
  end.

(** [JSON.parse(s)]: [None] stands for the [SyntaxError] it throws. *)
Definition JSON_parse (s : string) : option JsValue :=
  ts ← lex LIdle s; parse_tokens parser_init ts.

(* ===================================================================== *)
(** * [String(v)] and [new Error(message)] *)
(* ===================================================================== *)

(** The real number [m * 2 ^ e / 10 ^ q], as a fraction. *)
Definition scaled (m : positive) (e q : Z) : Z * Z :=
  (Zpos m * (if 0 <=? e then 2 ^ e else 1) * (if q <? 0 then 10 ^ (- q) else 1),
   (if 0 <=? e then 1 else 2 ^ (- e)) * (if q <? 0 then 1 else 10 ^ q)).

(** The [n] with [10 ^ (n - 1) <= m * 2 ^ e < 10 ^ n], reached from an
    estimate that is off by one at most. *)
Fixpoint decimal_exponent (fuel : nat) (m : positive) (e n : Z) : Z :=
  match fuel with
  | O => n
  | S fuel' =>
      let '(num, den) := scaled m e (n - 1) in
      if num <? den then decimal_exponent fuel' m e (n - 1)
      else if 10 * den <=? num then decimal_exponent fuel' m e (n + 1)
      else n
  end.

(** The decimal [s * 10 ^ q] reads back as [x]: [x] is the binary64
    number nearest to it. *)
Definition reads_back (x : float) (s q : Z) : bool :=
  PrimFloat.eqb x
    (decimal_to_float {| d_neg := false; d_mant := s; d_frac := 0;
                         d_eneg := q <? 0; d_exp := Z.abs q |}).

(** The digits of [Number::toString]: for [x = m * 2 ^ e] with
    [10 ^ (n - 1) <= x < 10 ^ n], the decimal [s * 10 ^ q] of the fewest
    digits [k] that reads back as [x], the one nearest to [x] when two
    decimals of [k] digits do. Seventeen digits always read back. *)
Fixpoint shortest (fuel : nat) (x : float) (m : positive) (e n k : Z) : Z * Z :=
  let q := n - k in
  let '(num, den) := scaled m e q in
  let lo := num / den in
  let nearest :=
    if 2 * (num mod den) <? den then lo
    else if den <? 2 * (num mod den) then lo + 1
    else if Z.even lo then lo else lo + 1 in
  match fuel with
  | O => (nearest, q)
  | S fuel' =>
      if reads_back x lo q && reads_back x (lo + 1) q then (nearest, q)
      else if reads_back x lo q then (lo, q)
      else if reads_back x (lo + 1) q then (lo + 1, q)
      else shortest fuel' x m e n (k + 1)
  end.

Fixpoint strip_zeros (fuel : nat) (s q : Z) : Z * Z :=
  match fuel with
  | O => (s, q)
  | S fuel' => if s mod 10 =? 0 then strip_zeros fuel' (s / 10) (q + 1) else (s, q)
  end.

Fixpoint zeros (n : nat) : string :=
  match n with
  | O => EmptyString
  | S n' => String "0" (zeros n')
  end.

(** The notation of [Number::toString] for the digits [s] and the
    exponent [q]: plain digits, a decimal point, leading zeros, or the
    exponent form when the number has more than 21 integer digits or more
    than 6 zeros after the point. *)
Definition format_number (s q : Z) : string :=
  let D := pretty s in
  let k := Z.of_nat (String.length D) in
  let n := k + q in
  if (k <=? n) && (n <=? 21) then D +:+ zeros (Z.to_nat (n - k))
  else if (0 <? n) && (n <=? 21) then
    substring 0 (Z.to_nat n) D +:+ "." +:+ substring (Z.to_nat n) (Z.to_nat (k - n)) D
  else if (-6 <? n) && (n <=? 0) then "0." +:+ zeros (Z.to_nat (- n)) +:+ D
  else
    let E := (if 0 <=? n - 1 then "+" else "-") +:+ pretty (Z.abs (n - 1)) in
    if k =? 1 then D +:+ "e" +:+ E
    else substring 0 1 D +:+ "." +:+ substring 1 (Z.to_nat (k - 1)) D +:+ "e" +:+ E.

(** [String(x)] for a number. *)
Definition Number_toString (x : float) : string :=
  match Prim2SF x with
  | S754_nan => "NaN"
  | S754_zero _ => "0"
  | S754_infinity sign => if sign then "-Infinity" else "Infinity"
  | S754_finite sign m e =>
      let n := decimal_exponent 4 m e ((Z.log2 (Zpos m) + e) * 30103 / 100000 + 1) in
      let '(s, q) := shortest 16 (PrimFloat.abs x) m e n 1 in
      let '(s, q) := strip_zeros 20 s q in
      (if sign then "-" else EmptyString) +:+ format_number s q
  end.

(** [Array.prototype.join] with the separator [","]: the elements are
    converted in their order, [null] and [undefined] give nothing. *)
Section Array_join.
Variable element_text : JsValue → completion string.

Fixpoint Array_join (first : bool) (l : list JsValue) : completion string :=
  match l with
  | [] => Normal EmptyString
  | x :: l' =>
      match
        match x with
        | JUndefined | JNull => Normal EmptyString
        | _ => element_text x
        end
      with
      | Throw e => Throw e
      | Normal s =>
          match Array_join false l' with
          | Throw e => Throw e
          | Normal rest => Normal ((if first then EmptyString else ",") +:+ s +:+ rest)
          end
      end
  end.
End Array_join.

(** The error of a conversion that finds no primitive value. *)
Definition conversion_error : JsError :=
  {| err_class := TypeError;
     err_message := JStr "Cannot convert object to primitive value" |}.

(** [ToString(v)], for the values that [JSON.parse] builds. An array is
    joined with commas, [null] and [undefined] elements giving nothing;
    an object gives the text of [Object.prototype.toString], unless it
    has a property [toString] of its own: that property is not callable,
    no method gives a primitive, and the conversion throws. *)
Fixpoint ToString (v : JsValue) : completion string :=
  match v with
  | JUndefined => Normal "undefined"
  | JNull => Normal "null"
  | JBool b => Normal (if b then "true" else "false")
  | JNum x => Normal (Number_toString x)
  | JStr s => Normal s
  | JArr items => Array_join ToString true items
  | JObj fields =>
      match fields !! "toString" with
      | Some _ => Throw conversion_error
      | None => Normal "[object Object]"
      end
  end.

(** [new Error(message)]: the message of the error is [String(message)],
    and the empty string of the prototype when no message is given; the
    construction throws when the conversion does. *)
Definition new_Error (message : JsValue) : completion JsError :=
  match message with
  | JUndefined => Normal {| err_class := PlainError; err_message := JStr EmptyString |}
  | _ =>
      match ToString message with
      | Normal text => Normal {| err_class := PlainError; err_message := JStr text |}
      | Throw e => Throw e
      end
  end.

(** [throw e], where evaluating [e] may itself throw. *)
Definition throw {A : Type} (e : completion JsError) : completion A :=
  match e with
  | Normal error => Throw error
  | Throw error => Throw error
  end.

(* ===================================================================== *)
(** * src/lib/api.ts *)
(* ===================================================================== *)

(** The object literal returned for invalid input (api.ts, lines 16-26). *)
Definition fallback_product : JsValue :=
  JObj (list_to_map [
    ("id", JNum 0);
    ("title", JStr "Invalid Product");
    ("images", JArr []);
    ("breadcrumbs", JObj {[ "path" := JArr [] ]});
    ("benefits", JArr []);
    ("shipping", JObj (list_to_map [
        ("free", JBool false); ("timeline", JStr EmptyString);
        ("deadline", JNull); ("moreOptionsUrl", JStr "#")]));
    ("pickup", JObj (list_to_map [
        ("free", JBool false); ("timeline", JNull);
        ("location", JNull); ("mapUrl", JNull)]));
    ("description", JStr EmptyString);
    ("specs", JObj (list_to_map [
        ("highlighted", JArr []); ("featureGroups", JArr [])]))
  ]).

Definition default_breadcrumbs : JsValue := JObj {[ "path" := JArr [] ]}.
Definition default_specs : JsValue :=
  JObj (list_to_map [("highlighted", JArr []); ("featureGroups", JArr [])]).

(** [parseJsonField]: a string is parsed, a [SyntaxError] is caught and
    gives [null]; any other value is returned as it is. *)
Definition parseJsonField (field : JsValue) : JsValue :=
  match field with
  | JStr s =>
      match JSON_parse s with
      | Some v => v
      | None => JNull
      end
  | _ => field
  end.

(** [transformProduct] (the [console.error] diagnostic of the fallback
    branch is output only and is left out). *)
Definition transformProduct (product : JsValue) : JsValue :=
  if negb (ToBoolean product) || negb (String.eqb (typeof product) "object")
  then fallback_product
  else
    let parsedImages := parseJsonField (js_get product "images") in
    JObj (
      <["specs" := js_or (parseJsonField (js_get product "specs")) default_specs]> (
      <["pickup" := js_or (parseJsonField (js_get product "pickup")) (JObj ∅)]> (
      <["shipping" := js_or (parseJsonField (js_get product "shipping")) (JObj ∅)]> (
      <["benefits" := js_or (parseJsonField (js_get product "benefits")) (JArr [])]> (
      <["breadcrumbs" :=
          js_or (parseJsonField (js_get product "breadcrumbs")) default_breadcrumbs]> (
      <["images" := if Array_isArray parsedImages then parsedImages else JArr []]> (
      spread product))))))).

(** What [fetch(url)] settles to: a rejection, or a response whose
    [json()] in turn either gives the parsed body or throws. *)
Record Response := {
  ok : bool;
  status : Z;
  statusText : string;
  json : completion JsValue
}.

Inductive fetch_outcome :=
| FetchRejected (e : JsError)
| FetchResolved (response : Response).

Definition is_TypeError (e : JsError) : bool :=
  match err_class e with TypeError => true | _ => false end.

(** [v === s] for a string literal [s]. *)
Definition strict_eq_string (v : JsValue) (s : string) : bool :=
  match v with JStr s' => String.eqb s' s | _ => false end.

(** Reading a property of [null] or [undefined] throws. *)
Definition read_property (v : JsValue) (k : string) : completion JsValue :=
  match v with
  | JNull =>
      Throw {| err_class := TypeError;
               err_message := JStr ("Cannot read properties of null (reading '" +:+ k +:+ "')") |}
  | JUndefined =>
      Throw {| err_class := TypeError;
               err_message :=
                 JStr ("Cannot read properties of undefined (reading '" +:+ k +:+ "')") |}
  | _ => Normal (js_get v k)
  end.

(** The [try] block of [fetcher] (api.ts, lines 75-94). *)
Definition fetcher_try (base : string) (fetch : string → fetch_outcome)
    (endpoint : string) : completion JsValue :=
  match fetch (base +:+ endpoint) with
  | FetchRejected e => Throw e
  | FetchResolved response =>
      if negb (ok response) then
        let errorMessage := "Request failed with status " +:+ pretty (status response) in
        throw (new_Error
          match json response with
          | Normal errorInfo =>
              if ToBoolean errorInfo && ToBoolean (js_get errorInfo "message")
              then js_get errorInfo "message"
              else JStr errorMessage
          | Throw _ => JStr (errorMessage +:+ " (" +:+ statusText response +:+ ")")
          end)
      else
        match json response with
        | Throw e => Throw e
        | Normal result =>
            match read_property result "data" with
            | Throw e => Throw e
            | Normal data => Normal (js_nullish data result)
            end
        end
  end.

(** [fetcher]: the configuration check, the [try] block and the [catch]
    block that rewrites the transport failure and rethrows anything else
    (the [console.error] is left out). *)
Definition fetcher (API_BASE_URL : option string) (fetch : string → fetch_outcome)
    (endpoint : string) : completion JsValue :=
  match API_BASE_URL with
  | None =>
      throw (new_Error (JStr
        "API_BASE_URL is not configured. Please define it in your environment or see run.md for local setup instructions."))
  | Some base =>
      if String.eqb base EmptyString then
        throw (new_Error (JStr
          "API_BASE_URL is not configured. Please define it in your environment or see run.md for local setup instructions."))
      else
        match fetcher_try base fetch endpoint with
        | Normal v => Normal v
        | Throw error =>
            if is_TypeError error && strict_eq_string (err_message error) "Failed to fetch"
            then throw (new_Error (JStr
              "Network error. Please check your internet connection and try again."))
            else Throw error
        end
  end.

Definition getProduct (API_BASE_URL : option string) (fetch : string → fetch_outcome)
    (id : Z) : completion JsValue :=
  match fetcher API_BASE_URL fetch ("/products/" +:+ pretty id) with
  | Normal data => Normal (transformProduct data)
  | Throw e => Throw e
  end.

Definition getQuestions (API_BASE_URL : option string) (fetch : string → fetch_outcome)
    (id : Z) : completion JsValue :=
  match fetcher API_BASE_URL fetch ("/questions/" +:+ pretty id) with
  | Normal data => Normal (if Array_isArray data then data else JArr [])
  | Throw e => Throw e
  end.

(* ===================================================================== *)
(** * [Math.round] and the discount of ProductOfferInfo.tsx *)
(* ===================================================================== *)

(** The integer nearest to [v / 2 ^ k], the larger one on a tie. *)
Definition round_half_up (v k : Z) : Z := (2 * v + 2 ^ k) / 2 ^ (k + 1).

(** The integer nearest to [v / 2 ^ k], the one farther from zero on a
    tie: the rounding the specification names. *)
Definition round_half_away (v k : Z) : Z :=
  if 0 <=? v then round_half_up v k else - round_half_up (- v) k.

(** The mantissa of a finite number, with its sign. *)
Definition signed_mantissa (s : bool) (m : positive) : Z :=
  if s then Zneg m else Zpos m.

(** The number for the integer [n] that rounding a number of sign [s]
    gave: a zero keeps the sign. *)
Definition integral_float (s : bool) (n : Z) : float :=
  if n =? 0 then (if s then PrimFloat.neg_zero else PrimFloat.zero)
  else float_of_Z n.

(** [Math.round(x)]: [x] itself when it is not finite or already an
    integer, otherwise the nearest integer, preferring the one closer to
    +∞ on a tie; a result of zero keeps the sign of [x]. *)
Definition Math_round (x : float) : float :=
  match Prim2SF x with
  | S754_finite s m e =>
      if 0 <=? e then x
      else integral_float s (round_half_up (signed_mantissa s m) (- e))
  | _ => x
  end.

(** Rounding to the nearest integer, half away from zero: the rounding
    that section 4.4 of the specification names. *)
Definition spec_round (x : float) : float :=
  match Prim2SF x with
  | S754_finite s m e =>
      if 0 <=? e then x
      else integral_float s (round_half_away (signed_mantissa s m) (- e))
  | _ => x
  end.

Record Installments := {
  months : float;
  amount : float;
  interestFree : bool
}.

(** One entry of a variant's [pricing] map. A field that is [null] or
    missing in the payload is [None]. *)
Record Pricing := {
  price : option float;
  originalPrice : option float;
  installments : option Installments
}.

Definition truthy_number (o : option float) : bool :=
  match o with
  | Some x => number_truthy x
  | None => false
  end.

(** ProductOfferInfo.tsx, lines 76-77. *)
Definition discount (currentPricing : Pricing) : float :=
  match originalPrice currentPricing, price currentPricing with
  | Some o, Some p =>
      if number_truthy o && number_truthy p
      then Math_round (((o - p) / o) * 100)%float
      else 0%float
  | _, _ => 0%float
  end.

(** The discount as section 4.4 of the specification words it:
    round((originalPrice - price) / originalPrice * 100), half away from
    zero, when both prices are present and originalPrice > 0; otherwise 0. *)
Definition spec_discountPercent (currentPricing : Pricing) : float :=
  match originalPrice currentPricing, price currentPricing with
  | Some o, Some p =>
      if (0 <? o)%float then spec_round (((o - p) / o) * 100)%float else 0%float
  | _, _ => 0%float
  end.

(* ===================================================================== *)
(** * src/App.tsx *)
(* ===================================================================== *)

(** The records of lib/types.ts, as README.md documents the interfaces.
    Identifiers are integral numbers (ids of the backend, [Date.now()]
    for a question added locally) and are integers here; an attribute
    map is a finite map from attribute keys to string values. *)
Record Variant := {
  v_id : Z;
  attributes : gmap string string;
  v_title : string;
  imageIndex : Z;
  pricing : gmap string Pricing;
  stock : Z
}.

Record ProductOffer := {
  productInfo : JsValue;
  variations : list (string * string);
  variants : list Variant;
  highlightedFeatures : list string
}.

Record QA := {
  q_id : Z;
  question : string;
  answer : option string;
  isUserGenerated : option bool
}.

(** The [useState] cells of the [App] component. *)
Record AppState := {
  products : list JsValue;
  currentProductId : option Z;
  currentProduct : option JsValue;
  currentOffer : option ProductOffer;
  currentQuestions : list QA;
  currentReviews : option JsValue;
  currentPaymentMethods : option JsValue;
  currentSeller : option JsValue;
  selectedVariantId : option Z;
  quantity : Z;
  snackbarMessage : option string;
  currency : string;
  loading : bool;
  error : option string
}.

(** The state of the first render. *)
Definition initial_state : AppState := {|
  products := [];
  currentProductId := None;
  currentProduct := None;
  currentOffer := None;
  currentQuestions := [];
  currentReviews := None;
  currentPaymentMethods := None;
  currentSeller := None;
  selectedVariantId := None;
  quantity := 1;
  snackbarMessage := None;
  currency := "COP";
  loading := true;
  error := None
|}.

(** The price block of ProductOfferInfo: nothing is rendered ([None])
    without a selected variant priced in the currency. *)
Definition offer_discount (selectedVariant : option Variant) (currency : string)
  : option float :=
  v ← selectedVariant; currentPricing ← pricing v !! currency;
  Some (discount currentPricing).

(** [variants.find(v => v.id === selectedVariantId)] *)
Definition find_variant (vs : list Variant) (selected : option Z) : option Variant :=
  find (λ v, bool_decide (Some (v_id v) = selected)) vs.

(** [Object.keys(newAttributes).every(key => v.attributes[key] === newAttributes[key])] *)
Definition matches_all (candidate : gmap string string) (v : Variant) : bool :=
  forallb (λ key, bool_decide (attributes v !! key = candidate !! key))
          (map_to_list candidate).*1.

(** [v.attributes[attribute] === value] *)
Definition matches_changed (attribute value : string) (v : Variant) : bool :=
  bool_decide (attributes v !! attribute = Some value).

(** [{ ...currentVariant.attributes, [attribute]: value }] (App.tsx, line 159) *)
Definition newAttributes (currentVariant : Variant) (attribute value : string)
  : gmap string string :=
  <[attribute := value]> (attributes currentVariant).

(** App.tsx, lines 159-170: the variant chosen for a change of one
    attribute of [currentVariant]. *)
Definition resolveVariant (vs : list Variant) (currentVariant : Variant)
    (attribute value : string) : Variant :=
  match find (matches_all (newAttributes currentVariant attribute value)) vs with
  | Some newVariant => newVariant
  | None =>
      match find (matches_changed attribute value) vs with
      | Some newVariant => newVariant
      | None => currentVariant
      end
  end.

Definition is_set (o : option JsValue) : bool :=
  match o with
  | Some v => ToBoolean v
  | None => false
  end.

Definition select_variant (newVariant : Variant) (st : AppState) : AppState :=
  {| products := products st;
     currentProductId := currentProductId st;
     currentProduct := currentProduct st;
     currentOffer := currentOffer st;
     currentQuestions := currentQuestions st;
     currentReviews := currentReviews st;
     currentPaymentMethods := currentPaymentMethods st;
     currentSeller := currentSeller st;
     selectedVariantId := Some (v_id newVariant);
     quantity := 1;
     snackbarMessage := snackbarMessage st;
     currency := currency st;
     loading := loading st;
     error := error st |}.

(** [handleVariantChange] (App.tsx, lines 152-174). The handler has no
    [throw]: it completes normally at both early returns, with the state
    as it was, and at its end, with the two state updates applied. *)
Definition handleVariantChange (attribute value : string) (st : AppState)
  : completion AppState :=
  if negb (is_set (currentProduct st)) then Normal st
  else
    match currentOffer st with
    | None => Normal st
    | Some offer =>
        match find_variant (variants offer) (selectedVariantId st) with
        | None => Normal st
        | Some currentVariant =>
            Normal (select_variant
                      (resolveVariant (variants offer) currentVariant attribute value) st)
        end
    end.

(** [selectedVariant] (App.tsx, line 204). *)
Definition selectedVariant (st : AppState) : option Variant :=
  offer ← currentOffer st; find_variant (variants offer) (selectedVariantId st).

Definition with_questions (qs : list QA) (st : AppState) : AppState :=
  {| products := products st;
     currentProductId := currentProductId st;
     currentProduct := currentProduct st;
     currentOffer := currentOffer st;
     currentQuestions := qs;
     currentReviews := currentReviews st;
     currentPaymentMethods := currentPaymentMethods st;
     currentSeller := currentSeller st;
     selectedVariantId := selectedVariantId st;
     quantity := quantity st;
     snackbarMessage := snackbarMessage st;
     currency := currency st;
     loading := loading st;
     error := error st |}.

(** [setCurrentQuestions(prev => [newQuestion, ...prev])] *)
Definition handleAddQuestion (newQuestion : QA) (st : AppState) : AppState :=
  with_questions (newQuestion :: currentQuestions st) st.

Definition set_answer (a : string) (q : QA) : QA :=
  {| q_id := q_id q; question := question q; answer := Some a;
     isUserGenerated := isUserGenerated q |}.

(** [prev.map(q => q.id === questionId ? { ...q, answer } : q)] *)
Definition handleUpdateQuestionAnswer (questionId : Z) (a : string) (st : AppState)
  : AppState :=
  with_questions
    (map (λ q, if bool_decide (q_id q = questionId) then set_answer a q else q)
         (currentQuestions st)) st.

(** [prev.filter(q => q.id !== questionId)] *)
Definition handleDeleteQuestion (questionId : Z) (st : AppState) : AppState :=
  with_questions
    (filter (λ q, q_id q ≠ questionId) (currentQuestions st)) st.

(** The question that the form of the Questions component adds before it
    asks for the answer ([tempId] is [Date.now()]). *)
Definition optimistic_question (tempId : Z) (userQuestion : string) : QA :=
  {| q_id := tempId; question := userQuestion; answer := None;
     isUserGenerated := Some true |}.

(** [Array.prototype.sort(comparefn)]: a stable sort; [a] is placed
    before [b] when [comparefn a b <= 0]. *)
Section Array_sort.
Context {A : Type} (comparefn : A → A → Z).

Fixpoint sort_insert (x : A) (l : list A) : list A :=
  match l with
  | [] => [x]
  | y :: l' => if comparefn x y <=? 0 then x :: l else y :: sort_insert x l'
  end.

Definition Array_sort (l : list A) : list A := foldr sort_insert [] l.
End Array_sort.

(** The comparator of App.tsx, line 99: [(a, b) => b.id - a.id]. *)
Definition by_id_descending (a b : QA) : Z := q_id b - q_id a.

(** What [Promise.all] of the six requests resolves to. *)
Record DetailBatch := {
  product : JsValue;
  offer : ProductOffer;
  questions : list QA;
  reviews : JsValue;
  paymentMethods : JsValue;
  seller : JsValue
}.

(** [handleSelectProduct] (the scroll is left out). *)
Definition handleSelectProduct (id : Z) (st : AppState) : AppState :=
  {| products := products st;
     currentProductId := Some id;
     currentProduct := currentProduct st;
     currentOffer := currentOffer st;
     currentQuestions := currentQuestions st;
     currentReviews := currentReviews st;
     currentPaymentMethods := currentPaymentMethods st;
     currentSeller := currentSeller st;
     selectedVariantId := selectedVariantId st;
     quantity := quantity st;
     snackbarMessage := snackbarMessage st;
     currency := currency st;
     loading := loading st;
     error := error st |}.

(** [fetchProductDetails] up to its [await] (App.tsx, lines 85-86). *)
Definition fetchProductDetails_start (st : AppState) : AppState :=
  {| products := products st;
     currentProductId := currentProductId st;
     currentProduct := currentProduct st;
     currentOffer := currentOffer st;
     currentQuestions := currentQuestions st;
     currentReviews := currentReviews st;
     currentPaymentMethods := currentPaymentMethods st;
     currentSeller := currentSeller st;
     selectedVariantId := selectedVariantId st;
     quantity := quantity st;
     snackbarMessage := snackbarMessage st;
     currency := currency st;
     loading := true;
     error := None |}.

(** [fetchProductDetails] after the [await], when the batch requested for
    the product [requested] resolved (App.tsx, lines 97-109 and 123).
    [requested] is the [currentProductId] the closure captured; the
    continuation only uses it in the message it logs on failure. *)
Definition fetchProductDetails_fulfilled (requested : Z) (r : DetailBatch)
    (st : AppState) : AppState :=
  {| products := products st;
     currentProductId := currentProductId st;
     currentProduct := Some (product r);
     currentOffer := Some (offer r);
     currentQuestions := Array_sort by_id_descending (questions r);
     currentReviews := Some (reviews r);
     currentPaymentMethods := Some (paymentMethods r);
     currentSeller := Some (seller r);
     selectedVariantId :=
       match variants (offer r) with
       | v :: _ => Some (v_id v)
       | [] => selectedVariantId st
       end;
     quantity := 1;
     snackbarMessage := snackbarMessage st;
     currency := currency st;
     loading := false;
     error := error st |}.

(** [fetchProductDetails] after the [await], when the batch rejected with
    an error of message [errorMessage] (App.tsx, lines 111-123). *)
Definition fetchProductDetails_rejected (requested : Z) (errorMessage : string)
    (st : AppState) : AppState :=
  {| products := products st;
     currentProductId := currentProductId st;
     currentProduct := None;
     currentOffer := None;
     currentQuestions := [];
     currentReviews := None;
     currentPaymentMethods := None;
     currentSeller := None;
     selectedVariantId := selectedVariantId st;
     quantity := quantity st;
     snackbarMessage := snackbarMessage st;
     currency := currency st;
     loading := false;
     error := Some ("Could not load product information. " +:+ errorMessage) |}.

(** The page between two events: the component state and the product ids
    of the detail batches that were requested and have not settled. *)
Record Page := {
  app : AppState;
  in_flight : list Z
}.

Inductive event :=
| SelectProduct (id : Z)
| BatchFulfilled (id : Z) (r : DetailBatch)
| BatchRejected (id : Z) (errorMessage : string).

Fixpoint remove_one (id : Z) (l : list Z) : list Z :=
  match l with
  | [] => []
  | x :: l' => if bool_decide (x = id) then l' else x :: remove_one id l'
  end.

(** One turn of the event loop. Selecting a product sets
    [currentProductId]; the second effect (App.tsx, lines 81-128) runs
    when that changed the value and the new value is truthy, and requests
    a batch. A batch settles only when it is in flight. *)
Definition step (pg : Page) (ev : event) : option Page :=
  match ev with
  | SelectProduct id =>
      let st := handleSelectProduct id (app pg) in
      if bool_decide (currentProductId (app pg) = Some id) || bool_decide (id = 0)
      then Some {| app := st; in_flight := in_flight pg |}
      else Some {| app := fetchProductDetails_start st;
                   in_flight := in_flight pg ++ [id] |}
  | BatchFulfilled id r =>
      if bool_decide (id ∈ in_flight pg)
      then Some {| app := fetchProductDetails_fulfilled id r (app pg);
                   in_flight := remove_one id (in_flight pg) |}
      else None
  | BatchRejected id errorMessage =>
      if bool_decide (id ∈ in_flight pg)
      then Some {| app := fetchProductDetails_rejected id errorMessage (app pg);
                   in_flight := remove_one id (in_flight pg) |}
      else None
  end.

Fixpoint run (pg : Page) (evs : list event) : option Page :=
  match evs with
  | [] => Some pg
  | ev :: evs' => pg' ← step pg ev; run pg' evs'
  end.

Definition initial_page : Page := {| app := initial_state; in_flight := [] |}.

(* ===================================================================== *)
(** * Vocabulary of the statements *)
(* ===================================================================== *)

(** A variant agrees with a candidate attribute map when it carries, for
    every key of the candidate, the value the candidate has there. *)
Definition agrees (candidate : gmap string string) (v : Variant) : Prop :=
  ∀ k x, candidate !! k = Some x → attributes v !! k = Some x.

(** The state [st'] is the state [st] but for the selected variant id and
    the quantity. *)
Definition same_but_selection (st st' : AppState) : Prop :=
  products st' = products st ∧
  currentProductId st' = currentProductId st ∧
  currentProduct st' = currentProduct st ∧
  currentOffer st' = currentOffer st ∧
  currentQuestions st' = currentQuestions st ∧
  currentReviews st' = currentReviews st ∧
  currentPaymentMethods st' = currentPaymentMethods st ∧
  currentSeller st' = currentSeller st ∧
  snackbarMessage st' = snackbarMessage st ∧
  currency st' = currency st ∧
  loading st' = loading st ∧
  error st' = error st.

(** The six detail cells of the state hold the batch [r]. *)
Definition shows (st : AppState) (r : DetailBatch) : Prop :=
  currentProduct st = Some (product r) ∧
  currentOffer st = Some (offer r) ∧
  currentQuestions st = Array_sort by_id_descending (questions r) ∧
  currentReviews st = Some (reviews r) ∧
  currentPaymentMethods st = Some (paymentMethods r) ∧
  currentSeller st = Some (seller r).

(** The shape of a normalised object. *)
Definition normalised (m0 : gmap string JsValue) (I B Be Sh P S : JsValue)
  : gmap string JsValue :=
  <["specs" := S]> (<["pickup" := P]> (<["shipping" := Sh]> (
  <["benefits" := Be]> (<["breadcrumbs" := B]> (<["images" := I]> m0))))).

Definition json_fields : list string :=
  ["breadcrumbs"; "benefits"; "shipping"; "pickup"; "specs"].

(** [a] may stand before [b] in an array sorted with [comparefn]. *)
Definition in_order {A : Type} (comparefn : A → A → Z) (a b : A) : Prop :=
  comparefn a b <= 0.

(* ===================================================================== *)
(** * Sample data *)
(* ===================================================================== *)

Definition sample_variant (id : Z) (color ram : string) : Variant :=
  {| v_id := id;
     attributes := <["color" := color]> (<["ram" := ram]> ∅);
     v_title := EmptyString;
     imageIndex := 0;
     pricing := ∅;
     stock := 1 |}.

Definition sample_offer (vs : list Variant) : ProductOffer :=
  {| productInfo := JObj ∅;
     variations := [("Color", "color"); ("RAM", "ram")];
     variants := vs;
     highlightedFeatures := [] |}.

(** A page in its ready state, showing the offer [o] with the variant
    [selected]. *)
Definition ready_state (o : ProductOffer) (selected : Z) : AppState :=
  {| products := [];
     currentProductId := Some 7;
     currentProduct := Some (JObj {[ "id" := JNum 7 ]});
     currentOffer := Some o;
     currentQuestions := [];
     currentReviews := None;
     currentPaymentMethods := None;
     currentSeller := Some (JObj ∅);
     selectedVariantId := Some selected;
     quantity := 3;
     snackbarMessage := None;
     currency := "COP";
     loading := false;
     error := None |}.

(** The variants of the property P4 of the specification. *)
Definition p4_variants : list Variant :=
  [sample_variant 1 "A" "8"; sample_variant 2 "A" "16"; sample_variant 3 "B" "8"].

(** The variants of the property P5 of the specification. *)
Definition p5_variants : list Variant :=
  [sample_variant 1 "A" "8"; sample_variant 2 "B" "16"].

(** A question that came from the backend, with its answer. *)
Definition qa_fetched (id : Z) (text reply : string) : QA :=
  {| q_id := id; question := text; answer := Some reply; isUserGenerated := None |}.

Definition p8_state : AppState :=
  with_questions [qa_fetched 2 "Warranty?" "One year"; qa_fetched 1 "Colour?" "Black"]
                 (ready_state (sample_offer p4_variants) 1).

Definition sample_batch (id : Z) (name : string) : DetailBatch :=
  {| product :=
       transformProduct
         (JObj (list_to_map [("id", JNum (float_of_Z id)); ("title", JStr name)]));
     offer := sample_offer [sample_variant (10 * id) "A" "8"];
     questions := [qa_fetched (10 * id) "Q" "A"];
     reviews := JObj {[ "aiSummary" := JStr name ]};
     paymentMethods := JObj ∅;
     seller := JObj {[ "name" := JStr name ]} |}.

(** A batch whose questions arrive in no particular order. *)
Definition unsorted_batch : DetailBatch :=
  {| product := fallback_product;
     offer := sample_offer p4_variants;
     questions := [qa_fetched 2 "b" "y"; qa_fetched 5 "e" "v";
                   qa_fetched 1 "a" "z"; qa_fetched 3 "c" "x"];
     reviews := JObj ∅;
     paymentMethods := JObj ∅;
     seller := JObj ∅ |}.

Definition quoted (s : string) : string := String dquote (s +:+ String dquote EmptyString).

(** A raw product whose structured fields arrive as JSON text, as in the
    test 'should parse JSON string fields correctly'. *)
Definition encoded_product : JsValue :=
  JObj (list_to_map [
    ("id", JNum 1);
    ("title", JStr "Test Product");
    ("images", JStr ("[" +:+ quoted "image1.jpg" +:+ ", " +:+ quoted "image2.jpg" +:+ "]"));
    ("breadcrumbs", JStr ("{" +:+ quoted "path" +:+ ": [{" +:+ quoted "name" +:+ ": "
                          +:+ quoted "Home" +:+ ", " +:+ quoted "href" +:+ ": "
                          +:+ quoted "/" +:+ "}]}"));
    ("benefits", JStr ("[{" +:+ quoted "icon" +:+ ": " +:+ quoted "shield" +:+ "}]"));
    ("shipping", JStr ("{" +:+ quoted "free" +:+ ": true, " +:+ quoted "timeline" +:+ ": "
                       +:+ quoted "tomorrow" +:+ "}"));
    ("pickup", JStr ("{" +:+ quoted "free" +:+ ": false, " +:+ quoted "timeline"
                     +:+ ": null}"));
    ("specs", JStr ("{" +:+ quoted "highlighted" +:+ ": [" +:+ quoted "Feature 1" +:+ "], "
                    +:+ quoted "featureGroups" +:+ ": []}"));
    ("description", JStr "Test description")
  ]).

(** A raw product whose breadcrumbs field is the JSON text of a string. *)
Definition double_encoded_product : JsValue :=
  JObj {[ "breadcrumbs" := JStr (quoted "x") ]}.

Definition sample_base : string := "http://localhost:3000/api".

(** A network that answers every request with status 200 and [body]. *)
Definition respond_with (body : JsValue) : string → fetch_outcome :=
  λ _, FetchResolved {| ok := true; status := 200; statusText := "OK";
                        json := Normal body |}.

(** A network that answers every request with status 500 and the error
    body [{message: message}]. *)
Definition fail_with (message : JsValue) : string → fetch_outcome :=
  λ _, FetchResolved {| ok := false; status := 500; statusText := "Server Error";
                        json := Normal (JObj {[ "message" := message ]}) |}.

Definition wrapped_questions : JsValue :=
  JObj {[ "data" := JArr [JObj {[ "id" := JNum 1 ]}] ]}.

Definition wrapped_null : JsValue := JObj {[ "data" := JNull ]}.

Definition pricing_of (p : float) (o : option float) : Pricing :=
  {| price := Some p; originalPrice := o; installments := None |}.

(* ===================================================================== *)
(** * The rest of src/lib/api.ts *)
(* ===================================================================== *)

(** [getProducts] (api.ts, lines 115-130). [Object.values(data)] lists the
    values of an object in its property order; the finite map of an
    object does not record that order, so the enumeration is a parameter
    of the model (the diagnostic of the last branch is left out). *)
Section getProducts.
Variable Object_values : gmap string JsValue → list JsValue.

Definition getProducts (API_BASE_URL : option string) (fetch : string → fetch_outcome)
  : completion (list JsValue) :=
  match fetcher API_BASE_URL fetch "/products" with
  | Throw e => Throw e
  | Normal data =>
      match data with
      | JArr items => Normal (transformProduct <$> items)
      | JObj fields => Normal (transformProduct <$> Object_values fields)
      | _ => Normal []
      end
  end.
End getProducts.

(** The four getters that return the payload as it is (api.ts, lines
    147, 165, 172 and 179). *)
Definition getProductOffer (API_BASE_URL : option string) (fetch : string → fetch_outcome)
    (id : Z) : completion JsValue :=
  fetcher API_BASE_URL fetch ("/product_offers/" +:+ pretty id).

Definition getReviews (API_BASE_URL : option string) (fetch : string → fetch_outcome)
    (id : Z) : completion JsValue :=
  fetcher API_BASE_URL fetch ("/reviews/" +:+ pretty id).

Definition getPaymentMethods (API_BASE_URL : option string)
    (fetch : string → fetch_outcome) (id : Z) : completion JsValue :=
  fetcher API_BASE_URL fetch ("/payment_methods/" +:+ pretty id).

Definition getSeller (API_BASE_URL : option string) (fetch : string → fetch_outcome)
    (id : Z) : completion JsValue :=
  fetcher API_BASE_URL fetch ("/sellers/" +:+ pretty id).

(** The six fields that [transformProduct] parses, and what each becomes
    when its parsed value is unusable (api.ts, lines 50-55). *)
Definition parsed_fields : list string :=
  ["images"; "breadcrumbs"; "benefits"; "shipping"; "pickup"; "specs"].

Definition field_default (f : string) : JsValue :=
  if String.eqb f "images" then JArr []
  else if String.eqb f "breadcrumbs" then default_breadcrumbs
  else if String.eqb f "benefits" then JArr []
  else if String.eqb f "specs" then default_specs
  else JObj ∅.

(** The error of an unset base address (api.ts, lines 70-72). *)
Definition config_error : JsError :=
  {| err_class := PlainError;
     err_message := JStr
       "API_BASE_URL is not configured. Please define it in your environment or see run.md for local setup instructions." |}.

(** The error a transport failure is turned into (api.ts, line 103). *)
Definition network_error : JsError :=
  {| err_class := PlainError;
     err_message := JStr "Network error. Please check your internet connection and try again." |}.

(** [!API_BASE_URL] *)
Definition unset (API_BASE_URL : option string) : Prop :=
  API_BASE_URL = None ∨ API_BASE_URL = Some EmptyString.

(* ===================================================================== *)
(** * What App.tsx renders (lines 206-248) *)
(* ===================================================================== *)

Inductive Screen :=
| InitialLoading
| ErrorScreen (message : string)
| Preparing
| ProductPage (overlay : bool).

Definition truthy_string (o : option string) : bool :=
  match o with
  | Some s => negb (String.eqb s EmptyString)
  | None => false
  end.

Definition defined {A : Type} (o : option A) : bool :=
  match o with
  | Some _ => true
  | None => false
  end.

(** The four returns of the component, in their order: the first-load
    spinner, the error screen, the placeholder, and the page, with its
    overlay while [loading]. *)
Definition render (st : AppState) : Screen :=
  if loading st && negb (is_set (currentProduct st)) && negb (truthy_string (error st))
  then InitialLoading
  else if truthy_string (error st) then ErrorScreen (default EmptyString (error st))
  else if negb (is_set (currentProduct st)) || negb (defined (currentOffer st))
          || negb (defined (selectedVariant st)) || negb (is_set (currentSeller st))
  then Preparing
  else ProductPage (loading st).

(* ===================================================================== *)
(** * The option buttons of ProductOfferInfo.tsx (lines 128-134) *)
(* ===================================================================== *)

(** [[...new Set(l)]]: the elements of [l] without repetition, each at its
    first occurrence. *)
Fixpoint Set_from {A : Type} `{EqDecision A} (seen l : list A) : list A :=
  match l with
  | [] => []
  | x :: l' =>
      if bool_decide (x ∈ seen) then Set_from seen l'
      else x :: Set_from (x :: seen) l'
  end.

(** The values offered for one variation axis; [None] is the [undefined]
    of a variant that lacks the attribute. *)
Definition option_values (attribute : string) (vs : list Variant) : list (option string) :=
  Set_from [] ((λ v, attributes v !! attribute) <$> vs).

(** [selectedVariant.attributes[variation.attribute] === optionValue] *)
Definition isSelected (selected : Variant) (attribute : string)
    (optionValue : option string) : bool :=
  bool_decide (attributes selected !! attribute = optionValue).

(* ===================================================================== *)
(** * QuantitySelector.tsx and the stock block of ProductPurchaseBox.tsx *)
(* ===================================================================== *)

Definition maxDropdownItems : Z := 6.

Inductive QuantityView :=
| LastOne
| Dropdown (options : list Z) (more : bool).

(** The selector with its list open (QuantitySelector.tsx, lines 57-101):
    the last-one message for a stock of 1, otherwise the quantities 1 to
    [Math.min(stock, 6)] and the closing entry when the stock is larger.
    [None] stands for the [RangeError] of [Array(n)] on a negative [n]. *)
Definition QuantitySelector (stock : Z) : option QuantityView :=
  if bool_decide (stock = 1) then Some LastOne
  else if Z.min stock maxDropdownItems <? 0 then None
  else Some (Dropdown (seqZ 1 (Z.min stock maxDropdownItems))
                      (bool_decide (maxDropdownItems < stock))).

Inductive StockBlock :=
| SinStock
| Quantity (view : QuantityView).

(** ProductPurchaseBox.tsx, lines 66-70: the selector when [stock > 0]. *)
Definition stock_block (stock : Z) : option StockBlock :=
  if 0 <? stock then Quantity <$> QuantitySelector stock else Some SinStock.

(** ProductPurchaseBox.tsx, lines 76 and 82: [disabled={stock === 0}]. *)
Definition buttons_disabled (stock : Z) : bool := bool_decide (stock = 0).

(** [handleQuantitySelect]: [setQuantity(newQuantity)] on the state of App. *)
Definition handleQuantitySelect (newQuantity : Z) (st : AppState) : AppState :=
  {| products := products st;
     currentProductId := currentProductId st;
     currentProduct := currentProduct st;
     currentOffer := currentOffer st;
     currentQuestions := currentQuestions st;
     currentReviews := currentReviews st;
     currentPaymentMethods := currentPaymentMethods st;
     currentSeller := currentSeller st;
     selectedVariantId := selectedVariantId st;
     quantity := newQuantity;
     snackbarMessage := snackbarMessage st;
     currency := currency st;
     loading := loading st;
     error := error st |}.

(* ===================================================================== *)
(** * ProductFeatures.tsx (lines 47-49) *)
(* ===================================================================== *)

(** [Math.ceil(specs.highlighted.length / 2)], on a length. *)
Definition midIndex (length : nat) : nat := Nat.div2 (S length).

(** [slice(0, midIndex)] and [slice(midIndex)]. *)
Definition feature_columns {A : Type} (highlighted : list A) : list A * list A :=
  (take (midIndex (length highlighted)) highlighted,
   drop (midIndex (length highlighted)) highlighted).

(* ===================================================================== *)
(** * The page under the user's actions *)
(* ===================================================================== *)

(** What can happen to the page: an event of the detail effect, or one of
    the callbacks that the rendered page offers. *)
Inductive action :=
| Effect (ev : event)
| ChangeVariant (attribute value : string)
| PickQuantity (newQuantity : Z)
| AskQuestion (newQuestion : QA)
| AnswerQuestion (questionId : Z) (a : string)
| RemoveQuestion (questionId : Z).

Definition with_app (st : AppState) (pg : Page) : Page :=
  {| app := st; in_flight := in_flight pg |}.

(** The quantities the purchase box lets the user pick. *)
Definition pickable (st : AppState) : list Z :=
  match selectedVariant st with
  | Some v =>
      match stock_block (stock v) with
      | Some (Quantity (Dropdown options _)) => options
      | _ => []
      end
  | None => []
  end.

(** One action. A quantity can be picked only from the open list. *)
Definition act (pg : Page) (a : action) : option Page :=
  match a with
  | Effect ev => step pg ev
  | ChangeVariant attribute value =>
      match handleVariantChange attribute value (app pg) with
      | Normal st => Some (with_app st pg)
      | Throw _ => None
      end
  | PickQuantity newQuantity =>
      if bool_decide (newQuantity ∈ pickable (app pg))
      then Some (with_app (handleQuantitySelect newQuantity (app pg)) pg)
      else None
  | AskQuestion newQuestion => Some (with_app (handleAddQuestion newQuestion (app pg)) pg)
  | AnswerQuestion questionId a =>
      Some (with_app (handleUpdateQuestionAnswer questionId a (app pg)) pg)
  | RemoveQuestion questionId =>
      Some (with_app (handleDeleteQuestion questionId (app pg)) pg)
  end.

Fixpoint perform (pg : Page) (acts : list action) : option Page :=
  match acts with
  | [] => Some pg
  | a :: acts' => pg' ← act pg a; perform pg' acts'
  end.

(** The questions are newest first: ids never increase along the list. *)
Definition newest_first (qs : list QA) : Prop :=
  StronglySorted (λ a b, q_id b <= q_id a) qs.

(** A loaded offer with variants has a selected variant, and the quantity
    is within the stock of a selected variant that is in stock. *)
Definition selection_ok (st : AppState) : Prop :=
  (∀ o, currentOffer st = Some o → variants o ≠ [] → is_Some (selectedVariant st)) ∧
  (∀ v, selectedVariant st = Some v → 0 < stock v → 1 <= quantity st <= stock v).

(** The enumeration of the values of an object used in the examples. *)
Definition values_in_key_order (m : gmap string JsValue) : list JsValue :=
  (map_to_list m).*2.

(** A variant with the single attribute color, and one with a third
    attribute. *)
Definition plain_variant (id : Z) (color : string) : Variant :=
  {| v_id := id;
     attributes := {[ "color" := color ]};
     v_title := EmptyString;
     imageIndex := 0;
     pricing := ∅;
     stock := 1 |}.

Definition sized_variant (id : Z) (color ram size : string) : Variant :=
  {| v_id := id;
     attributes := <["size" := size]> (<["color" := color]> (<["ram" := ram]> ∅));
     v_title := EmptyString;
     imageIndex := 0;
     pricing := ∅;
     stock := 1 |}.

(** Variants that do not carry the same attribute keys: the second has
    one more than the others. *)
Definition mixed_variants : list Variant :=
  [plain_variant 1 "A"; sample_variant 2 "B" "8"; plain_variant 3 "B"].

(** Variants of which the third has one key more than the others. *)
Definition sized_variants : list Variant :=
  [sample_variant 1 "A" "8"; sample_variant 2 "B" "16"; sized_variant 3 "B" "8" "L"].

(** A batch whose offer has no variant. *)
Definition empty_offer_batch : DetailBatch :=
  {| product := fallback_product;
     offer := sample_offer [];
     questions := [];
     reviews := JObj ∅;
     paymentMethods := JObj ∅;
     seller := JObj ∅ |}.

(** A batch whose offer has two variants, with five units and one unit
    in stock. *)
Definition stocked_variant (id : Z) (color : string) (units : Z) : Variant :=
  {| v_id := id;
     attributes := {[ "color" := color ]};
     v_title := EmptyString;
     imageIndex := 0;
     pricing := ∅;
     stock := units |}.

Definition stocked_batch : DetailBatch :=
  {| product := JObj {[ "id" := JNum 7 ]};
     offer := sample_offer [stocked_variant 70 "A" 5; stocked_variant 71 "B" 1];
     questions := [];
     reviews := JObj ∅;
     paymentMethods := JObj ∅;
     seller := JObj {[ "name" := JStr "Store" ]} |}.

(** A session on the page of that batch, and the page it ends on. *)
Definition session : list action :=
  [Effect (SelectProduct 7); Effect (BatchFulfilled 7 stocked_batch);
   PickQuantity 4; AskQuestion (optimistic_question 9 "New?");
   ChangeVariant "color" "B"; ChangeVariant "color" "A"; PickQuantity 5].

Definition session_end : Page :=
  {| app :=
       handleQuantitySelect 5
         (select_variant (stocked_variant 70 "A" 5)
            (select_variant (stocked_variant 71 "B" 1)
               (handleAddQuestion (optimistic_question 9 "New?")
                  (handleQuantitySelect 4
                     (fetchProductDetails_fulfilled 7 stocked_batch
                        (fetchProductDetails_start
                           (handleSelectProduct 7 initial_state)))))));
     in_flight := [] |}.

(** A page whose batch rejected while another batch is in flight, what
    happens next, and the page that gives. *)
Definition failed_page : Page :=
  {| app := fetchProductDetails_rejected 7 "Request failed with status 500"
              (fetchProductDetails_start (handleSelectProduct 7 initial_state));
     in_flight := [8] |}.

Definition late_actions : list action :=
  [Effect (BatchFulfilled 8 stocked_batch); ChangeVariant "color" "B";
   AnswerQuestion 9 "late"].

Definition failed_end : Page :=
  {| app :=
       handleUpdateQuestionAnswer 9 "late"
         (select_variant (stocked_variant 71 "B" 1)
            (fetchProductDetails_fulfilled 8 stocked_batch (app failed_page)));
     in_flight := [] |}.

(* ===================================================================== *)
(** * Variant resolution (App.tsx, [handleVariantChange]) *)
(* ===================================================================== *)

Section find_facts.
Context {A : Type} (f : A → bool).

Lemma find_first l x :
  find f l = Some x →
  ∃ pre post, l = pre ++ x :: post ∧ f x = true ∧ ∀ y, y ∈ pre → f y = false.
Proof.
  induction l as [|a l IH]; simpl; [discriminate|].
  destruct (f a) eqn:Ha.
  - intros [= ->]. exists [], l. split_and!; [done..|]. intros y Hy. inversion Hy.
  - intros Hx. destruct (IH Hx) as (pre & post & -> & Hfx & Hpre).
    exists (a :: pre), post. split_and!; [done..|].
    intros y [->|Hy]%elem_of_cons; auto.
Qed.

Lemma find_first_inv pre x post :
  f x = true → (∀ y, y ∈ pre → f y = false) → find f (pre ++ x :: post) = Some x.
Proof.
  intros Hx. induction pre as [|a pre IH]; simpl; intros Hpre.
  - by rewrite Hx.
  - rewrite (Hpre a) by left. apply IH. intros y Hy. apply Hpre. by right.
Qed.

Lemma find_nothing l : find f l = None ↔ ∀ y, y ∈ l → f y = false.
Proof.
  induction l as [|a l IH]; simpl.
  - split; [intros _ y Hy; inversion Hy | done].
  - destruct (f a) eqn:Ha.
    + split; [discriminate|]. intros H. specialize (H a). rewrite Ha in H.
      discriminate H. left.
    + rewrite IH. split.
      * intros H y [->|Hy]%elem_of_cons; auto.
      * intros H y Hy. apply H. by right.
Qed.
End find_facts.

Lemma matches_all_agrees candidate v :
  matches_all candidate v = true ↔ agrees candidate v.
Proof.
  unfold matches_all, agrees. rewrite forallb_forall. split.
  - intros H k x Hk.
    assert (In k (map_to_list candidate).*1) as Hin.
    { apply list_elem_of_In, list_elem_of_fmap. exists (k, x).
      split; [done|]. by apply elem_of_map_to_list. }
    apply H in Hin. apply bool_decide_eq_true in Hin. by rewrite Hin.
  - intros H k Hin. apply bool_decide_eq_true.
    apply list_elem_of_In, list_elem_of_fmap in Hin as ([k' x] & -> & Hx).
    apply elem_of_map_to_list in Hx. simpl. rewrite Hx. by apply H.
Qed.

Lemma matches_all_false candidate v :
  matches_all candidate v = false ↔ ¬ agrees candidate v.
Proof. rewrite <- matches_all_agrees. by destruct (matches_all candidate v). Qed.

Lemma matches_changed_true attribute value v :
  matches_changed attribute value v = true ↔ attributes v !! attribute = Some value.
Proof. apply bool_decide_eq_true. Qed.

Lemma matches_changed_false attribute value v :
  matches_changed attribute value v = false ↔ attributes v !! attribute ≠ Some value.
Proof. apply bool_decide_eq_false. Qed.

Lemma agrees_same_keys candidate v :
  agrees candidate v → dom (attributes v) ⊆ dom candidate → attributes v = candidate.
Proof.
  intros Hag Hdom. apply map_eq. intros k.
  destruct (candidate !! k) as [x|] eqn:Hk; [by apply Hag|].
  apply not_elem_of_dom. intros Hin. apply Hdom in Hin.
  by apply not_elem_of_dom in Hk.
Qed.

Lemma find_variant_elem vs selected v :
  find_variant vs selected = Some v → v ∈ vs ∧ selected = Some (v_id v).
Proof.
  intros (pre & post & -> & Hv & _)%find_first. split.
  - apply elem_of_app. right. left.
  - by apply bool_decide_eq_true in Hv.
Qed.

Lemma find_variant_is_Some vs v :
  v ∈ vs → is_Some (find_variant vs (Some (v_id v))).
Proof.
  intros Hv. unfold find_variant.
  destruct (find _ vs) eqn:Hf; [by eexists|].
  rewrite find_nothing in Hf. apply Hf in Hv.
  by apply bool_decide_eq_false in Hv.
Qed.

Lemma find_variant_None vs selected :
  find_variant vs selected = None ↔ ∀ v, v ∈ vs → Some (v_id v) ≠ selected.
Proof.
  unfold find_variant. rewrite find_nothing.
  split; intros H v Hv; specialize (H v Hv); simpl in *.
  - by apply bool_decide_eq_false in H.
  - by apply bool_decide_eq_false.
Qed.

Lemma resolveVariant_elem vs cur attribute value :
  cur ∈ vs → resolveVariant vs cur attribute value ∈ vs.
Proof.
  intros Hcur. unfold resolveVariant.
  destruct (find (matches_all _) vs) eqn:H1.
  - apply find_first in H1 as (pre & post & -> & _). apply elem_of_app. right. left.
  - destruct (find (matches_changed _ _) vs) eqn:H2; [|done].
    apply find_first in H2 as (pre & post & -> & _). apply elem_of_app. right. left.
Qed.

Lemma handleVariantChange_resolves st o cur attribute value :
  is_set (currentProduct st) = true →
  currentOffer st = Some o →
  find_variant (variants o) (selectedVariantId st) = Some cur →
  handleVariantChange attribute value st
  = Normal (select_variant (resolveVariant (variants o) cur attribute value) st).
Proof.
  intros Hp Ho Hcur. unfold handleVariantChange. by rewrite Hp, Ho, Hcur.
Qed.

Lemma select_variant_frame v st : same_but_selection st (select_variant v st).
Proof. by repeat split. Qed.

Lemma find_variant_unique vs v :
  NoDup (v_id <$> vs) → v ∈ vs → find_variant vs (Some (v_id v)) = Some v.
Proof.
  intros Hnd Hv. apply list_elem_of_split in Hv as (pre & post & ->).
  unfold find_variant. apply find_first_inv.
  - by apply bool_decide_eq_true_2.
  - intros y Hy. apply bool_decide_eq_false_2. intros [= Heq].
    rewrite fmap_app, fmap_cons in Hnd. apply NoDup_app in Hnd as (_ & Hdis & _).
    apply (Hdis (v_id y)); [apply list_elem_of_fmap; eauto|]. rewrite Heq. left.
Qed.

(** C1, as the code has it. For a page showing an offer whose variant
    list contains the current variant id, the handler builds the
    candidate map: the current variant's attributes with the changed
    attribute overwritten by the new value. Whenever some variant of the
    list carries the candidate's value for every key of the candidate
    (the changed one and the unchanged ones), the handler completes with
    the state in which the selected variant id is the id of the first
    such variant in list order and the quantity is 1, and nothing else
    has changed; with ids that are pairwise distinct that variant is the
    selected variant of the next render. The variant may carry keys that
    the candidate lacks: its attribute map is the candidate map itself as
    soon as it has no such key, and no variant before it has the
    candidate as its attribute map. On the variants of P4, with current
    id 1 and the change of ram to 16, the selected id becomes 2. *)
Theorem handleVariantChange_primary_match :
  (∀ (st : AppState) (o : ProductOffer) (cur w : Variant) (attribute value : string),
      is_set (currentProduct st) = true →
      currentOffer st = Some o →
      find_variant (variants o) (selectedVariantId st) = Some cur →
      w ∈ variants o →
      agrees (newAttributes cur attribute value) w →
      let candidate := newAttributes cur attribute value in
      candidate !! attribute = Some value ∧
      (∀ k, k ≠ attribute → candidate !! k = attributes cur !! k) ∧
      ∃ pre v post st',
        variants o = pre ++ v :: post ∧
        agrees candidate v ∧
        (∀ u, u ∈ pre → ¬ agrees candidate u) ∧
        (∀ u, u ∈ pre → attributes u ≠ candidate) ∧
        (dom (attributes v) ⊆ dom candidate → attributes v = candidate) ∧
        handleVariantChange attribute value st = Normal st' ∧
        selectedVariantId st' = Some (v_id v) ∧
        quantity st' = 1 ∧
        same_but_selection st st' ∧
        (NoDup (v_id <$> variants o) → selectedVariant st' = Some v))
  ∧ ∃ st',
      handleVariantChange "ram" "16" (ready_state (sample_offer p4_variants) 1) = Normal st' ∧
      selectedVariantId st' = Some 2 ∧
      quantity st' = 1 ∧
      selectedVariant st' = Some (sample_variant 2 "A" "16").
Proof.
  split.
  2: { exists (select_variant (sample_variant 2 "A" "16")
                 (ready_state (sample_offer p4_variants) 1)).
       split; [by vm_compute|]. split; [reflexivity|]. split; [reflexivity|].
       by vm_compute. }
  intros st o cur w attribute value Hp Ho Hcur Hw Hag candidate.
  split; [apply lookup_insert_eq|].
  split; [intros k Hk; by apply lookup_insert_ne|].
  rewrite (handleVariantChange_resolves st o cur) by done.
  unfold resolveVariant. fold candidate.
  destruct (find (matches_all candidate) (variants o)) as [v|] eqn:Hfind.
  - apply find_first in Hfind as (pre & post & Hsplit & Hv & Hpre).
    exists pre, v, post, (select_variant v st). apply matches_all_agrees in Hv.
    split_and!; [done..| | | |done|done|done|apply select_variant_frame|].
    + intros u Hu. apply matches_all_false. by apply Hpre.
    + intros u Hu Heq. apply Hpre in Hu. apply matches_all_false in Hu.
      apply Hu. intros k x Hk. by rewrite Heq.
    + by apply agrees_same_keys.
    + intros Hnd. unfold selectedVariant. simpl. rewrite Ho. simpl.
      apply find_variant_unique; [done|]. rewrite Hsplit. apply elem_of_app. right. left.
  - rewrite find_nothing in Hfind. apply Hfind in Hw.
    apply matches_all_false in Hw. by destruct Hw.
Qed.

(** The theorem of C1 at the data of P4. *)
Lemma handleVariantChange_primary_match_P4 :
  let st := ready_state (sample_offer p4_variants) 1 in
  let candidate := newAttributes (sample_variant 1 "A" "8") "ram" "16" in
  candidate !! "ram" = Some "16" ∧
  (∀ k, k ≠ "ram" → candidate !! k = attributes (sample_variant 1 "A" "8") !! k) ∧
  ∃ pre v post st',
    p4_variants = pre ++ v :: post ∧
    agrees candidate v ∧
    (∀ u, u ∈ pre → ¬ agrees candidate u) ∧
    (∀ u, u ∈ pre → attributes u ≠ candidate) ∧
    (dom (attributes v) ⊆ dom candidate → attributes v = candidate) ∧
    handleVariantChange "ram" "16" st = Normal st' ∧
    selectedVariantId st' = Some (v_id v) ∧
    quantity st' = 1 ∧
    same_but_selection st st' ∧
    (NoDup (v_id <$> p4_variants) → selectedVariant st' = Some v).
Proof.
  apply (proj1 handleVariantChange_primary_match
           (ready_state (sample_offer p4_variants) 1) (sample_offer p4_variants)
           (sample_variant 1 "A" "8") (sample_variant 2 "A" "16") "ram" "16").
  - reflexivity.
  - reflexivity.
  - reflexivity.
  - right. left.
  - apply matches_all_agrees. reflexivity.
Defined.

(** C1 as stated fails on variants that do not carry the same keys. With
    the variants {color: A}, {color: B, ram: 8} and {color: B}, current
    id 1 and the change of color to B, the candidate is {color: B}; the
    third variant is the one whose attribute map is identical to it, and
    the handler selects the second, whose map is not. *)
Lemma handleVariantChange_not_identical :
  let st := ready_state (sample_offer mixed_variants) 1 in
  let candidate := newAttributes (plain_variant 1 "A") "color" "B" in
  find_variant mixed_variants (selectedVariantId st) = Some (plain_variant 1 "A") ∧
  (∀ u, u ∈ mixed_variants → (attributes u = candidate ↔ u = plain_variant 3 "B")) ∧
  ∃ st',
    handleVariantChange "color" "B" st = Normal st' ∧
    selectedVariantId st' = Some 2 ∧
    selectedVariant st' = Some (sample_variant 2 "B" "8") ∧
    attributes (sample_variant 2 "B" "8") ≠ candidate.
Proof.
  intros st candidate. split; [reflexivity|]. split.
  - intros u Hu. unfold mixed_variants in Hu.
    repeat (apply elem_of_cons in Hu as [->|Hu]); [..|inversion Hu].
    + split; intros H; [|discriminate H].
      apply (f_equal (λ m, m !! "color")) in H. vm_compute in H. discriminate H.
    + split; intros H; [|discriminate H].
      apply (f_equal (λ m, m !! "ram")) in H. vm_compute in H. discriminate H.
    + split; [done|]. intros _. by vm_compute.
  - exists (select_variant (sample_variant 2 "B" "8") st).
    split; [by vm_compute|]. split; [reflexivity|]. split; [by vm_compute|].
    intros H. apply (f_equal (λ m, m !! "ram")) in H. vm_compute in H. discriminate H.
Qed.

Lemma selectedVariant_select_variant st o v :
  currentOffer st = Some o → v ∈ variants o →
  is_Some (selectedVariant (select_variant v st)).
Proof.
  intros Ho Hv. unfold selectedVariant. simpl. rewrite Ho. simpl.
  by apply find_variant_is_Some.
Qed.

(** C2, as the code has it. For a page showing an offer whose variant
    list contains the current variant id, the handler completes with a
    state whose selected variant is defined and whose quantity is 1,
    nothing but the selected id and the quantity having changed. When no
    variant of the list carries the candidate's value for every key of
    the candidate, the selected id becomes the id of the first variant in
    list order whose value for the changed attribute is the new value,
    whatever its other attributes; when no variant has that value there
    either, the current variant stays selected: the selected id is the
    one it was. *)
Theorem handleVariantChange_fallback
    (st : AppState) (o : ProductOffer) (cur : Variant) (attribute value : string) :
  is_set (currentProduct st) = true →
  currentOffer st = Some o →
  find_variant (variants o) (selectedVariantId st) = Some cur →
  ∃ st',
    handleVariantChange attribute value st = Normal st' ∧
    is_Some (selectedVariant st') ∧
    quantity st' = 1 ∧
    same_but_selection st st' ∧
    ((∀ w, w ∈ variants o → ¬ agrees (newAttributes cur attribute value) w) →
     (∀ pre v post,
         variants o = pre ++ v :: post →
         attributes v !! attribute = Some value →
         (∀ u, u ∈ pre → attributes u !! attribute ≠ Some value) →
         selectedVariantId st' = Some (v_id v) ∧
         (NoDup (v_id <$> variants o) → selectedVariant st' = Some v)) ∧
     ((∀ w, w ∈ variants o → attributes w !! attribute ≠ Some value) →
      selectedVariantId st' = Some (v_id cur) ∧
      selectedVariantId st' = selectedVariantId st ∧
      selectedVariant st' = Some cur)).
Proof.
  intros Hp Ho Hcur.
  exists (select_variant (resolveVariant (variants o) cur attribute value) st).
  split; [by apply handleVariantChange_resolves|].
  destruct (find_variant_elem _ _ _ Hcur) as [Hin Hsel].
  split.
  { apply (selectedVariant_select_variant st o); [done|].
    by apply resolveVariant_elem. }
  split; [done|]. split; [apply select_variant_frame|].
  intros Hnone.
  assert (find (matches_all (newAttributes cur attribute value)) (variants o) = None)
    as Hprimary.
  { apply find_nothing. intros w Hw. apply matches_all_false. by apply Hnone. }
  unfold resolveVariant. rewrite Hprimary. split.
  - intros pre v post Hsplit Hv Hpre. rewrite Hsplit.
    rewrite find_first_inv; [| |].
    + split; [done|]. intros Hnd. unfold selectedVariant. simpl. rewrite Ho. simpl.
      rewrite Hsplit. apply find_variant_unique; [done|].
      apply elem_of_app. right. left.
    + by apply matches_changed_true.
    + intros u Hu. apply matches_changed_false. by apply Hpre.
  - intros Hnowhere.
    assert (find (matches_changed attribute value) (variants o) = None) as ->.
    { apply find_nothing. intros w Hw. apply matches_changed_false. by apply Hnowhere. }
    split; [done|]. split; [simpl; by rewrite Hsel|].
    unfold selectedVariant. simpl. rewrite Ho. simpl. by rewrite <- Hsel.
Qed.

(** The theorem of C2 at the data of P5: current id 1, color changed to
    B. No variant is {color: B, ram: 8}, so the first variant of color B
    is selected: the selected id becomes 2 and the quantity 1. *)
Lemma handleVariantChange_fallback_P5 :
  let st := ready_state (sample_offer p5_variants) 1 in
  ∃ st',
    handleVariantChange "color" "B" st = Normal st' ∧
    is_Some (selectedVariant st') ∧
    quantity st' = 1 ∧
    same_but_selection st st' ∧
    selectedVariantId st' = Some 2.
Proof.
  intros st.
  destruct (handleVariantChange_fallback st (sample_offer p5_variants)
              (sample_variant 1 "A" "8") "color" "B" eq_refl eq_refl eq_refl)
    as (st' & Hcall & Hdefined & Hquantity & Hframe & Hfallback).
  exists st'. split; [exact Hcall|]. split; [exact Hdefined|].
  split; [exact Hquantity|]. split; [exact Hframe|].
  destruct Hfallback as [Hfirst _].
  - intros w Hw. apply matches_all_false.
    repeat (apply elem_of_cons in Hw as [->|Hw]); [reflexivity..|inversion Hw].
  - apply (Hfirst [sample_variant 1 "A" "8"] (sample_variant 2 "B" "16") []).
    + reflexivity.
    + reflexivity.
    + intros u Hu. apply elem_of_cons in Hu as [->|Hu]; [discriminate|inversion Hu].
Defined.

(** C2 as stated fails on variants that do not carry the same keys. With
    the variants {color: A, ram: 8}, {color: B, ram: 16} and
    {color: B, ram: 8, size: L}, current id 1 and the change of color to
    B, the candidate is {color: B, ram: 8}: no variant has it as its
    attribute map, the first variant of color B is the second, and the
    handler selects the third. *)
Lemma handleVariantChange_fallback_skipped :
  let st := ready_state (sample_offer sized_variants) 1 in
  let candidate := newAttributes (sample_variant 1 "A" "8") "color" "B" in
  find_variant sized_variants (selectedVariantId st) = Some (sample_variant 1 "A" "8") ∧
  (∀ u, u ∈ sized_variants → attributes u ≠ candidate) ∧
  find (matches_changed "color" "B") sized_variants = Some (sample_variant 2 "B" "16") ∧
  ∃ st',
    handleVariantChange "color" "B" st = Normal st' ∧
    selectedVariantId st' = Some 3 ∧
    selectedVariantId st' ≠ Some (v_id (sample_variant 2 "B" "16")) ∧
    selectedVariant st' = Some (sized_variant 3 "B" "8" "L").
Proof.
  intros st candidate. split; [reflexivity|]. split; [|split; [reflexivity|]].
  - intros u Hu H. unfold sized_variants in Hu.
    repeat (apply elem_of_cons in Hu as [->|Hu]); [..|inversion Hu].
    + apply (f_equal (λ m, m !! "color")) in H. vm_compute in H. discriminate H.
    + apply (f_equal (λ m, m !! "ram")) in H. vm_compute in H. discriminate H.
    + apply (f_equal (λ m, m !! "size")) in H. vm_compute in H. discriminate H.
  - exists (select_variant (sized_variant 3 "B" "8" "L") st).
    split; [by vm_compute|]. split; [reflexivity|].
    split; [intros H; simpl in H; discriminate H|]. by vm_compute.
Qed.

(** P5 itself: no variant is {color: B, ram: 8}, the first variant of
    color B is selected. *)
Example handleVariantChange_P5 :
  (∀ w, w ∈ p5_variants →
        ¬ agrees (newAttributes (sample_variant 1 "A" "8") "color" "B") w) ∧
  handleVariantChange "color" "B" (ready_state (sample_offer p5_variants) 1)
  = Normal (select_variant (sample_variant 2 "B" "16")
              (ready_state (sample_offer p5_variants) 1)).
Proof.
  split; [|reflexivity].
  intros w Hw. apply matches_all_false.
  repeat (apply elem_of_cons in Hw as [->|Hw]); [reflexivity..|inversion Hw].
Qed.

(** The absolute fallback: no variant has color Z, variant 1 stays. *)
Example handleVariantChange_no_such_value :
  handleVariantChange "color" "Z" (ready_state (sample_offer p5_variants) 1)
  = Normal (select_variant (sample_variant 1 "A" "8")
              (ready_state (sample_offer p5_variants) 1)).
Proof. reflexivity. Qed.

(** C8, as the code has it. When the selected variant id is the id of
    no variant of the offer, the handler raises no error: it returns at
    once and the state is left as it was. *)
Theorem handleVariantChange_unknown_current
    (st : AppState) (o : ProductOffer) (attribute value : string) :
  currentOffer st = Some o →
  (∀ v, v ∈ variants o → Some (v_id v) ≠ selectedVariantId st) →
  handleVariantChange attribute value st = Normal st ∧
  ∀ e, handleVariantChange attribute value st ≠ Throw e.
Proof.
  intros Ho Hnone. apply find_variant_None in Hnone.
  assert (handleVariantChange attribute value st = Normal st) as ->.
  { unfold handleVariantChange. rewrite Ho, Hnone. by destruct (negb _). }
  split; [done|]. intros e. discriminate.
Qed.

Lemma handleVariantChange_unknown_current_99 :
  let st := ready_state (sample_offer p4_variants) 99 in
  handleVariantChange "ram" "16" st = Normal st ∧
  ∀ e, handleVariantChange "ram" "16" st ≠ Throw e.
Proof.
  apply (handleVariantChange_unknown_current
           (ready_state (sample_offer p4_variants) 99) (sample_offer p4_variants)).
  - reflexivity.
  - intros v Hv.
    repeat (apply elem_of_cons in Hv as [->|Hv]); [discriminate..|inversion Hv].
Defined.

(** C8 as stated fails: with the variants of P4 and the selected id 99,
    which is the id of none of them, the call does not fail; it completes
    normally. *)
Lemma handleVariantChange_does_not_fail :
  find_variant p4_variants (Some 99) = None ∧
  handleVariantChange "ram" "16" (ready_state (sample_offer p4_variants) 99)
  = Normal (ready_state (sample_offer p4_variants) 99) ∧
  ¬ ∃ e, handleVariantChange "ram" "16" (ready_state (sample_offer p4_variants) 99)
         = Throw e.
Proof.
  split; [reflexivity|]. split; [reflexivity|].
  intros [e He]. discriminate He.
Qed.

(* ===================================================================== *)
(** * The question list (App.tsx, lines 180-201) *)
(* ===================================================================== *)

Lemma filter_sublist {A} (P : A → Prop) `{∀ x, Decision (P x)} (l : list A) :
  sublist (filter P l) l.
Proof.
  induction l as [|x l IH]; [constructor|].
  rewrite filter_cons. destruct (decide (P x)); by constructor.
Qed.

(** C9. The three local mutations of the question list. Adding a
    question puts it into the list, in front; the question the form
    creates for the id [T] has the id [T] and a null answer, so that
    adding it puts an entry with id [T] and a null answer into the list.
    Updating the answer of [T] keeps the length and the positions: an
    entry with id [T] becomes the same entry with the answer [a], every
    other entry is unchanged. Deleting [T] leaves no entry with id [T],
    keeps every other entry, and keeps them in their order (the result
    is a sublist). None of the three touches anything but the question
    list. *)
Theorem question_lifecycle (st : AppState) (T : Z) :
  (∀ newQuestion,
      let st' := handleAddQuestion newQuestion st in
      st' = with_questions (currentQuestions st') st ∧
      currentQuestions st' = newQuestion :: currentQuestions st ∧
      (q_id newQuestion = T → answer newQuestion = None →
       ∃ q, q ∈ currentQuestions st' ∧ q_id q = T ∧ answer q = None)) ∧
  (∀ text,
      q_id (optimistic_question T text) = T ∧
      answer (optimistic_question T text) = None ∧
      optimistic_question T text
      ∈ currentQuestions (handleAddQuestion (optimistic_question T text) st)) ∧
  (∀ a,
      let qs := currentQuestions st in
      let st' := handleUpdateQuestionAnswer T a st in
      st' = with_questions (currentQuestions st') st ∧
      length (currentQuestions st') = length qs ∧
      ∀ i q, qs !! i = Some q →
        (q_id q = T →
         ∃ q', currentQuestions st' !! i = Some q' ∧
               q_id q' = T ∧ question q' = question q ∧
               isUserGenerated q' = isUserGenerated q ∧ answer q' = Some a) ∧
        (q_id q ≠ T → currentQuestions st' !! i = Some q)) ∧
  (let qs := currentQuestions st in
   let st' := handleDeleteQuestion T st in
   st' = with_questions (currentQuestions st') st ∧
   (∀ q, q ∈ currentQuestions st' ↔ q ∈ qs ∧ q_id q ≠ T) ∧
   sublist (currentQuestions st') qs ∧
   currentQuestions st' = filter (λ q, q_id q ≠ T) qs).
Proof.
  split_and!.
  - intros newQuestion st'. split; [done|]. split; [done|].
    intros Hid Hanswer. exists newQuestion. split_and!; [left|done|done].
  - intros text. split_and!; [done|done|left].
  - intros a qs st'. split; [done|]. split; [apply length_map|].
    intros i q Hq. subst st'. simpl.
    rewrite list_lookup_fmap. fold qs. rewrite Hq. simpl. split.
    + intros HT. rewrite bool_decide_eq_true_2 by done.
      exists (set_answer a q). by split_and!.
    + intros HT. by rewrite bool_decide_eq_false_2.
  - intros qs st'. split; [done|]. split_and!.
    + intros q. subst st'. simpl. fold qs. by rewrite list_elem_of_filter, (comm and).
    + apply filter_sublist.
    + done.
Qed.

(** The theorem of C9 at the question of P8: once answered, the entry
    at the front has the id, the text and the flag it had, and the answer. *)
Lemma question_lifecycle_answered :
  let added := handleAddQuestion (optimistic_question 1700000000000 "Dual SIM?") p8_state in
  ∃ q', currentQuestions (handleUpdateQuestionAnswer 1700000000000 "hi" added) !! 0%nat
        = Some q' ∧
        q_id q' = 1700000000000 ∧ question q' = "Dual SIM?" ∧
        isUserGenerated q' = Some true ∧ answer q' = Some "hi".
Proof.
  intros added.
  destruct (question_lifecycle added 1700000000000) as (_ & _ & Hupdate & _).
  destruct (Hupdate "hi") as (_ & _ & Hat).
  apply (Hat 0%nat (optimistic_question 1700000000000 "Dual SIM?")); reflexivity.
Defined.

Example question_lifecycle_P8 :
  let added := handleAddQuestion (optimistic_question 1700000000000 "Dual SIM?") p8_state in
  let answered := handleUpdateQuestionAnswer 1700000000000 "hi" added in
  let deleted := handleDeleteQuestion 1700000000000 answered in
  currentQuestions added
  = [optimistic_question 1700000000000 "Dual SIM?";
     qa_fetched 2 "Warranty?" "One year"; qa_fetched 1 "Colour?" "Black"] ∧
  currentQuestions answered
  = [set_answer "hi" (optimistic_question 1700000000000 "Dual SIM?");
     qa_fetched 2 "Warranty?" "One year"; qa_fetched 1 "Colour?" "Black"] ∧
  currentQuestions deleted
  = [qa_fetched 2 "Warranty?" "One year"; qa_fetched 1 "Colour?" "Black"].
Proof. split_and!; reflexivity. Qed.

(* ===================================================================== *)
(** * Sorting the fetched questions (App.tsx, line 99) *)
(* ===================================================================== *)

Section Array_sort_facts.
Context {A : Type} (comparefn : A → A → Z).

Local Abbreviation ordered := (in_order comparefn).

Hypothesis comparefn_total : ∀ a b, ordered a b ∨ ordered b a.

Lemma sort_insert_Permutation x l : sort_insert comparefn x l ≡ₚ x :: l.
Proof.
  induction l as [|y l IH]; simpl; [done|].
  destruct (comparefn x y <=? 0); [done|].
  rewrite IH. apply Permutation_swap.
Qed.

Lemma Array_sort_Permutation l : Array_sort comparefn l ≡ₚ l.
Proof.
  induction l as [|x l IH]; simpl; [done|].
  rewrite sort_insert_Permutation. by constructor.
Qed.

Lemma sort_insert_HdRel a x l :
  ordered a x → HdRel ordered a l → HdRel ordered a (sort_insert comparefn x l).
Proof.
  intros Hax Hal. destruct l as [|y l]; simpl; [by constructor|].
  destruct (comparefn x y <=? 0); constructor; [done|].
  by inversion Hal.
Qed.

Lemma sort_insert_Sorted x l :
  Sorted ordered l → Sorted ordered (sort_insert comparefn x l).
Proof.
  induction l as [|y l IH]; simpl; intros Hl.
  - by repeat constructor.
  - destruct (Z.leb_spec (comparefn x y) 0) as [Hxy|Hxy].
    + constructor; [done|]. by constructor.
    + inversion Hl as [|? ? Hs Hhd]; subst. constructor; [by apply IH|].
      apply sort_insert_HdRel; [|done].
      destruct (comparefn_total y x) as [?|Hc]; [done|].
      unfold in_order in Hc. lia.
Qed.

Lemma Array_sort_Sorted l : Sorted ordered (Array_sort comparefn l).
Proof.
  induction l as [|x l IH]; simpl; [constructor|]. by apply sort_insert_Sorted.
Qed.
End Array_sort_facts.

(** The sort is stable: the entries of one id keep their order. *)
Lemma sort_insert_same_id (k : Z) (x : QA) (l : list QA) :
  filter (λ q, q_id q = k) (sort_insert by_id_descending x l)
  = filter (λ q, q_id q = k) (x :: l).
Proof.
  induction l as [|y l IH]; [done|]. simpl.
  destruct (Z.leb_spec (by_id_descending x y) 0) as [Hxy|Hxy]; [done|].
  unfold by_id_descending in Hxy.
  rewrite (filter_cons _ y), IH, !filter_cons.
  destruct (decide (q_id y = k)), (decide (q_id x = k)); try done. lia.
Qed.

Lemma Array_sort_stable (k : Z) (l : list QA) :
  filter (λ q, q_id q = k) (Array_sort by_id_descending l)
  = filter (λ q, q_id q = k) l.
Proof.
  induction l as [|x l IH]; [done|]. simpl.
  by rewrite sort_insert_same_id, !filter_cons, IH.
Qed.

Lemma Sorted_weaken {A} (R R' : A → A → Prop) (l : list A) :
  (∀ a b, R a b → R' a b) → Sorted R l → Sorted R' l.
Proof.
  intros HR. induction 1 as [|x l Hl IH Hhd]; constructor; [done|].
  destruct Hhd; constructor; auto.
Qed.

Lemma by_id_descending_total a b :
  in_order by_id_descending a b ∨ in_order by_id_descending b a.
Proof. unfold in_order, by_id_descending. lia. Qed.

(** C10. Newest first. When a detail batch resolves, the stored question
    list is the fetched list reordered (a permutation of it) so that ids
    never increase from one entry to any later one; and a question added
    locally becomes the first entry of the list, in front of the entries
    that were there, which keep their order. *)
Theorem questions_newest_first
    (requested : Z) (r : DetailBatch) (newQuestion : QA) (st : AppState) :
  (let qs := currentQuestions (fetchProductDetails_fulfilled requested r st) in
   qs ≡ₚ questions r ∧
   StronglySorted (λ a b, q_id b <= q_id a) qs ∧
   ∀ i j a b, (i < j)%nat → qs !! i = Some a → qs !! j = Some b → q_id b <= q_id a) ∧
  currentQuestions (handleAddQuestion newQuestion st)
  = newQuestion :: currentQuestions st ∧
  currentQuestions (handleAddQuestion newQuestion st) !! 0%nat = Some newQuestion.
Proof.
  assert (StronglySorted (λ a b, q_id b <= q_id a)
            (Array_sort by_id_descending (questions r))) as Hsorted.
  { apply Sorted_StronglySorted.
    - intros a b c ? ?. lia.
    - eapply Sorted_weaken; [|apply (Array_sort_Sorted by_id_descending)].
      + intros a b. unfold in_order, by_id_descending. lia.
      + apply by_id_descending_total. }
  split; [|done]. simpl. split_and!.
  - apply Array_sort_Permutation.
  - done.
  - intros i j a b Hij Ha Hb.
    revert i j Hij Ha Hb. induction Hsorted as [|x l Hl IH Hx]; intros i j Hij Ha Hb.
    + by rewrite lookup_nil in Ha.
    + destruct j as [|j]; [lia|]. destruct i as [|i].
      * simpl in Ha, Hb. injection Ha as ->. rewrite Forall_forall in Hx.
        apply Hx. by eapply list_elem_of_lookup_2.
      * simpl in Ha, Hb. apply (IH i j); [lia|done..].
Qed.

(** The theorem of C10 at a batch of four questions and a fresh page. *)
Lemma questions_newest_first_sample :
  (let qs := currentQuestions (fetchProductDetails_fulfilled 7 unsorted_batch initial_state) in
   qs ≡ₚ questions unsorted_batch ∧
   StronglySorted (λ a b, q_id b <= q_id a) qs ∧
   ∀ i j a b, (i < j)%nat → qs !! i = Some a → qs !! j = Some b → q_id b <= q_id a) ∧
  currentQuestions (handleAddQuestion (optimistic_question 9 "New?") p8_state)
  = optimistic_question 9 "New?" :: currentQuestions p8_state ∧
  currentQuestions (handleAddQuestion (optimistic_question 9 "New?") p8_state) !! 0%nat
  = Some (optimistic_question 9 "New?").
Proof.
  split.
  - apply (proj1 (questions_newest_first 7 unsorted_batch
                    (optimistic_question 9 "New?") initial_state)).
  - apply (proj2 (questions_newest_first 7 unsorted_batch
                    (optimistic_question 9 "New?") p8_state)).
Defined.

Example questions_sorted_on_load :
  Array_sort by_id_descending
    [qa_fetched 2 "b" "y"; qa_fetched 5 "e" "v"; qa_fetched 1 "a" "z"; qa_fetched 3 "c" "x"]
  = [qa_fetched 5 "e" "v"; qa_fetched 3 "c" "x"; qa_fetched 2 "b" "y"; qa_fetched 1 "a" "z"].
Proof. reflexivity. Qed.

(* ===================================================================== *)
(** * The detail effect and stale batches (App.tsx, lines 81-128) *)
(* ===================================================================== *)

Lemma elem_of_remove_one x y l : x ≠ y → x ∈ l → x ∈ remove_one y l.
Proof.
  intros Hxy. induction l as [|a l IH]; simpl; [done|].
  intros [->|Hx]%elem_of_cons.
  - rewrite bool_decide_eq_false_2 by done. left.
  - case_bool_decide; [done|]. right. by apply IH.
Qed.

Lemma fulfilled_shows requested r st :
  shows (fetchProductDetails_fulfilled requested r st) r.
Proof. by repeat split. Qed.

(** A batch that is in flight settles whatever the selection is by then,
    and its continuation stores its results. *)
Lemma step_BatchFulfilled pg id r :
  id ∈ in_flight pg →
  ∃ pg', step pg (BatchFulfilled id r) = Some pg' ∧
         shows (app pg') r ∧
         currentProductId (app pg') = currentProductId (app pg) ∧
         loading (app pg') = false ∧
         in_flight pg' = remove_one id (in_flight pg).
Proof.
  intros Hin. simpl. rewrite bool_decide_eq_true_2 by done.
  eexists. split; [done|]. split; [apply fulfilled_shows|done].
Qed.

Lemma step_SelectProduct_new pg id :
  id ≠ 0 → currentProductId (app pg) ≠ Some id →
  step pg (SelectProduct id)
  = Some {| app := fetchProductDetails_start (handleSelectProduct id (app pg));
            in_flight := in_flight pg ++ [id] |}.
Proof.
  intros H0 Hcur. simpl.
  by rewrite (bool_decide_eq_false_2 _ Hcur), (bool_decide_eq_false_2 _ H0).
Qed.

(** C6, as the code has it. The continuation of a batch does not compare
    the product it was requested for with the current selection. When
    the selection goes from [A] to [B] while the batch of [A] is in
    flight, both batches are applied in the order in which they settle:
    the detail state ends up holding the batch that settled last, the
    batch of [A] when that one is late, while [currentProductId] is [B]
    in both orders. *)
Theorem last_settled_batch_wins (pg : Page) (A B : Z) (rA rB : DetailBatch) :
  A ≠ 0 → B ≠ 0 → A ≠ B → currentProductId (app pg) ≠ Some A →
  (∃ pg',
      run pg [SelectProduct A; SelectProduct B; BatchFulfilled B rB; BatchFulfilled A rA]
      = Some pg' ∧
      currentProductId (app pg') = Some B ∧ shows (app pg') rA) ∧
  (∃ pg',
      run pg [SelectProduct A; SelectProduct B; BatchFulfilled A rA; BatchFulfilled B rB]
      = Some pg' ∧
      currentProductId (app pg') = Some B ∧ shows (app pg') rB).
Proof.
  intros HA HB HAB Hcur.
  set (pg1 := {| app := fetchProductDetails_start (handleSelectProduct A (app pg));
                 in_flight := in_flight pg ++ [A] |}).
  set (pg2 := {| app := fetchProductDetails_start (handleSelectProduct B (app pg1));
                 in_flight := in_flight pg1 ++ [B] |}).
  assert (step pg (SelectProduct A) = Some pg1) as H1
    by by apply step_SelectProduct_new.
  assert (step pg1 (SelectProduct B) = Some pg2) as H2.
  { apply step_SelectProduct_new; [done|]. simpl. congruence. }
  assert (A ∈ in_flight pg2) as HinA.
  { simpl. rewrite !elem_of_app. left. right. left. }
  assert (B ∈ in_flight pg2) as HinB.
  { simpl. rewrite !elem_of_app. right. left. }
  assert (currentProductId (app pg2) = Some B) as Hsel by done.
  split.
  - destruct (step_BatchFulfilled pg2 B rB HinB) as (pg3 & H3 & _ & Hid3 & _ & Hfl3).
    assert (A ∈ in_flight pg3) as HinA3.
    { rewrite Hfl3. by apply elem_of_remove_one. }
    destruct (step_BatchFulfilled pg3 A rA HinA3) as (pg4 & H4 & Hshows & Hid4 & _).
    exists pg4. split.
    + cbn [run]. rewrite H1. cbn [mbind option_bind]. rewrite H2. cbn [mbind option_bind].
      rewrite H3. cbn [mbind option_bind]. by rewrite H4.
    + split; [congruence|done].
  - destruct (step_BatchFulfilled pg2 A rA HinA) as (pg3 & H3 & _ & Hid3 & _ & Hfl3).
    assert (B ∈ in_flight pg3) as HinB3.
    { rewrite Hfl3. by apply elem_of_remove_one. }
    destruct (step_BatchFulfilled pg3 B rB HinB3) as (pg4 & H4 & Hshows & Hid4 & _).
    exists pg4. split.
    + cbn [run]. rewrite H1. cbn [mbind option_bind]. rewrite H2. cbn [mbind option_bind].
      rewrite H3. cbn [mbind option_bind]. by rewrite H4.
    + split; [congruence|done].
Qed.

Lemma last_settled_batch_wins_1_2 :
  (∃ pg',
      run initial_page
          [SelectProduct 1; SelectProduct 2;
           BatchFulfilled 2 (sample_batch 2 "Phone B");
           BatchFulfilled 1 (sample_batch 1 "Phone A")]
      = Some pg' ∧
      currentProductId (app pg') = Some 2 ∧ shows (app pg') (sample_batch 1 "Phone A")) ∧
  (∃ pg',
      run initial_page
          [SelectProduct 1; SelectProduct 2;
           BatchFulfilled 1 (sample_batch 1 "Phone A");
           BatchFulfilled 2 (sample_batch 2 "Phone B")]
      = Some pg' ∧
      currentProductId (app pg') = Some 2 ∧ shows (app pg') (sample_batch 2 "Phone B")).
Proof.
  apply (last_settled_batch_wins initial_page 1 2); [lia | lia | lia | discriminate].
Defined.

(** C6 as stated fails. Product 1 is selected, then product 2 while the
    batch of product 1 is in flight; the batch of product 2 resolves
    first, the batch of product 1 after it. Both have settled, the
    selection is product 2, and the page holds the product, the offer
    and the seller of product 1. *)
Lemma stale_batch_overwrites :
  ∃ pg',
    run initial_page
        [SelectProduct 1; SelectProduct 2;
         BatchFulfilled 2 (sample_batch 2 "Phone B");
         BatchFulfilled 1 (sample_batch 1 "Phone A")]
    = Some pg' ∧
    in_flight pg' = [] ∧
    loading (app pg') = false ∧
    currentProductId (app pg') = Some 2 ∧
    shows (app pg') (sample_batch 1 "Phone A") ∧
    js_get (default JNull (currentProduct (app pg'))) "title" = JStr "Phone A" ∧
    ¬ shows (app pg') (sample_batch 2 "Phone B").
Proof.
  eexists. split; [reflexivity|].
  split_and!; try reflexivity.
  - by repeat split.
  - intros (_ & _ & _ & _ & _ & Hseller). simpl in Hseller.
    apply (f_equal (λ o, js_get (default JNull o) "name")) in Hseller.
    vm_compute in Hseller. discriminate Hseller.
Qed.

(* ===================================================================== *)
(** * The normaliser (api.ts, [transformProduct]) *)
(* ===================================================================== *)

Lemma fallback_product_fields :
  js_get fallback_product "id" = JNum 0 ∧
  js_get fallback_product "title" = JStr "Invalid Product" ∧
  js_get fallback_product "images" = JArr [] ∧
  js_get (js_get fallback_product "breadcrumbs") "path" = JArr [] ∧
  js_get fallback_product "benefits" = JArr [] ∧
  js_get (js_get fallback_product "specs") "highlighted" = JArr [] ∧
  js_get (js_get fallback_product "specs") "featureGroups" = JArr [].
Proof. split_and!; reflexivity. Qed.

(** C3, as the code has it. Every input that is falsy or whose [typeof]
    is not "object" (null, undefined, every boolean, number and string)
    is mapped to the fixed fallback product: id 0, title "Invalid
    Product", and empty images, breadcrumbs path, benefits and specs
    lists. The function is total: nothing is thrown. *)
Theorem transformProduct_fallback (v : JsValue) :
  ToBoolean v = false ∨ typeof v ≠ "object" →
  transformProduct v = fallback_product ∧
  js_get (transformProduct v) "id" = JNum 0 ∧
  js_get (transformProduct v) "title" = JStr "Invalid Product" ∧
  js_get (transformProduct v) "images" = JArr [] ∧
  js_get (js_get (transformProduct v) "breadcrumbs") "path" = JArr [] ∧
  js_get (transformProduct v) "benefits" = JArr [] ∧
  js_get (js_get (transformProduct v) "specs") "highlighted" = JArr [] ∧
  js_get (js_get (transformProduct v) "specs") "featureGroups" = JArr [].
Proof.
  intros Hv.
  assert (transformProduct v = fallback_product) as ->.
  { unfold transformProduct. destruct Hv as [->|Hv]; [done|].
    apply String.eqb_neq in Hv. rewrite Hv. by rewrite orb_true_r. }
  split; [done|]. apply fallback_product_fields.
Qed.

(** The theorem of C3 at [null], [42] and ["x"]. *)
Lemma transformProduct_fallback_P2 :
  transformProduct JNull = fallback_product ∧
  transformProduct (JNum 42) = fallback_product ∧
  transformProduct (JStr "x") = fallback_product.
Proof.
  split_and!.
  - apply (transformProduct_fallback JNull). left. reflexivity.
  - apply (transformProduct_fallback (JNum 42)). right. discriminate.
  - apply (transformProduct_fallback (JStr "x")). right. discriminate.
Defined.

(** C3 as stated fails at the empty array: an array is truthy and its
    [typeof] is "object", so it takes the main branch. The result has no
    id and no title; it is not the fallback product. *)
Lemma transformProduct_empty_array :
  ToBoolean (JArr []) = true ∧
  typeof (JArr []) = "object" ∧
  js_get (transformProduct (JArr [])) "id" = JUndefined ∧
  js_get (transformProduct (JArr [])) "title" = JUndefined ∧
  transformProduct (JArr []) ≠ fallback_product.
Proof.
  split_and!; try reflexivity.
  intros H. apply (f_equal (λ v, js_get v "title")) in H.
  vm_compute in H. discriminate H.
Qed.

Lemma parseJsonField_structured v : typeof v ≠ "string" → parseJsonField v = v.
Proof. by destruct v. Qed.

Lemma js_or_truthy a d : ToBoolean d = true → ToBoolean (js_or a d) = true.
Proof. intros Hd. unfold js_or. by destruct (ToBoolean a) eqn:Ha. Qed.

Lemma js_or_left a d : ToBoolean a = true → js_or a d = a.
Proof. intros Ha. unfold js_or. by rewrite Ha. Qed.

Lemma transformProduct_fallback_fixed :
  transformProduct fallback_product = fallback_product.
Proof. reflexivity. Qed.

Lemma normalised_lookups m0 I B Be Sh P S :
  let M := normalised m0 I B Be Sh P S in
  M !! "images" = Some I ∧ M !! "breadcrumbs" = Some B ∧ M !! "benefits" = Some Be ∧
  M !! "shipping" = Some Sh ∧ M !! "pickup" = Some P ∧ M !! "specs" = Some S.
Proof. unfold normalised. split_and!; by simplify_map_eq. Qed.

Lemma transformProduct_normalised m0 I B Be Sh P S :
  Array_isArray I = true →
  Forall (λ x, ToBoolean x = true ∧ typeof x ≠ "string") [B; Be; Sh; P; S] →
  transformProduct (JObj (normalised m0 I B Be Sh P S))
  = JObj (normalised m0 I B Be Sh P S).
Proof.
  intros HI Hall.
  destruct (normalised_lookups m0 I B Be Sh P S) as (Hi & Hb & Hbe & Hsh & Hp & Hs).
  set (M := normalised m0 I B Be Sh P S) in *.
  apply Forall_cons in Hall as [[HB1 HB2] Hall].
  apply Forall_cons in Hall as [[HBe1 HBe2] Hall].
  apply Forall_cons in Hall as [[HSh1 HSh2] Hall].
  apply Forall_cons in Hall as [[HP1 HP2] Hall].
  apply Forall_cons in Hall as [[HS1 HS2] _].
  unfold transformProduct. cbn [ToBoolean typeof negb orb String.eqb Ascii.eqb Bool.eqb andb].
  cbn [js_get spread]. rewrite Hi, Hb, Hbe, Hsh, Hp, Hs. cbn [default from_option id].
  rewrite !parseJsonField_structured by first [done | by destruct I].
  rewrite HI, !js_or_left by done.
  f_equal.
  by rewrite (insert_id M "images" I Hi), (insert_id M "breadcrumbs" B Hb),
       (insert_id M "benefits" Be Hbe), (insert_id M "shipping" Sh Hsh),
       (insert_id M "pickup" P Hp), (insert_id M "specs" S Hs).
Qed.

(** A normalised product is the fallback or an object of that shape whose
    images are an array and whose five other parsed fields are truthy. *)
Lemma transformProduct_shape raw :
  transformProduct raw = fallback_product ∨
  ∃ m0 I B Be Sh P S,
    transformProduct raw = JObj (normalised m0 I B Be Sh P S) ∧
    Array_isArray I = true ∧
    Forall (λ x, ToBoolean x = true) [B; Be; Sh; P; S].
Proof.
  unfold transformProduct.
  destruct (negb (ToBoolean raw) || negb (String.eqb (typeof raw) "object"));
    [by left|right].
  do 7 eexists. split; [reflexivity|]. split.
  - by destruct (parseJsonField (js_get raw "images")).
  - repeat (apply Forall_cons; split; [by apply js_or_truthy|]). constructor.
Qed.

(** C4, as the code has it. [parseJsonField] returns every value that is
    not a string as it is. Normalising twice gives the result of
    normalising once for every raw input whose normalised breadcrumbs,
    benefits, shipping, pickup and specs are not strings (a field whose
    text is itself the JSON encoding of a string normalises to a string,
    which a second pass would parse again). *)
Theorem transformProduct_idempotent :
  (∀ v, typeof v ≠ "string" → parseJsonField v = v) ∧
  (∀ raw,
      (∀ f, f ∈ json_fields → typeof (js_get (transformProduct raw) f) ≠ "string") →
      transformProduct (transformProduct raw) = transformProduct raw).
Proof.
  split; [apply parseJsonField_structured|].
  intros raw Hfields.
  destruct (transformProduct_shape raw)
    as [->|(m0 & I & B & Be & Sh & P & S & Heq & HI & Htruthy)];
    [apply transformProduct_fallback_fixed|].
  rewrite Heq in Hfields |- *.
  apply transformProduct_normalised; [done|].
  destruct (normalised_lookups m0 I B Be Sh P S) as (_ & Hb & Hbe & Hsh & Hp & Hs).
  assert (∀ f x, normalised m0 I B Be Sh P S !! f = Some x → f ∈ json_fields →
                 typeof x ≠ "string") as Hns.
  { intros f x Hx Hf. specialize (Hfields f Hf).
    change (typeof (default JUndefined (normalised m0 I B Be Sh P S !! f)) ≠ "string")
      in Hfields.
    by rewrite Hx in Hfields. }
  apply Forall_cons in Htruthy as [HB Htruthy].
  apply Forall_cons in Htruthy as [HBe Htruthy].
  apply Forall_cons in Htruthy as [HSh Htruthy].
  apply Forall_cons in Htruthy as [HP Htruthy].
  apply Forall_cons in Htruthy as [HS _].
  repeat (apply Forall_cons; split; [split; [done|]|]); [..|constructor].
  - apply (Hns "breadcrumbs"); [done|set_solver].
  - apply (Hns "benefits"); [done|set_solver].
  - apply (Hns "shipping"); [done|set_solver].
  - apply (Hns "pickup"); [done|set_solver].
  - apply (Hns "specs"); [done|set_solver].
Qed.

Example transformProduct_encoded :
  js_get (transformProduct encoded_product) "images"
  = JArr [JStr "image1.jpg"; JStr "image2.jpg"] ∧
  js_get (js_get (transformProduct encoded_product) "shipping") "timeline"
  = JStr "tomorrow" ∧
  js_get (js_get (transformProduct encoded_product) "specs") "highlighted"
  = JArr [JStr "Feature 1"] ∧
  js_get (transformProduct encoded_product) "title" = JStr "Test Product".
Proof. split_and!; reflexivity. Qed.

(** The theorem of C4 at a product with JSON text in every parsed field. *)
Lemma transformProduct_idempotent_encoded :
  transformProduct (transformProduct encoded_product) = transformProduct encoded_product.
Proof.
  apply (proj2 transformProduct_idempotent encoded_product).
  intros f Hf. unfold json_fields in Hf.
  repeat (apply elem_of_cons in Hf as [->|Hf]); [discriminate..|inversion Hf].
Defined.

(** C4 as stated fails on a doubly encoded field. The first pass parses
    the text of the breadcrumbs into the string x; the second pass finds
    a string again, fails to parse it, and puts the default in its
    place. *)
Lemma transformProduct_not_idempotent :
  js_get (transformProduct double_encoded_product) "breadcrumbs" = JStr "x" ∧
  js_get (transformProduct (transformProduct double_encoded_product)) "breadcrumbs"
  = default_breadcrumbs ∧
  transformProduct (transformProduct double_encoded_product)
  ≠ transformProduct double_encoded_product.
Proof.
  split_and!; try reflexivity.
  intros H. apply (f_equal (λ v, js_get v "breadcrumbs")) in H.
  vm_compute in H. discriminate H.
Qed.

(* ===================================================================== *)
(** * The fetcher (api.ts, [fetcher]) *)
(* ===================================================================== *)

Lemma fetcher_success base fetch endpoint response body :
  base ≠ EmptyString →
  fetch (base +:+ endpoint) = FetchResolved response →
  ok response = true →
  json response = Normal body →
  fetcher (Some base) fetch endpoint
  = match read_property body "data" with
    | Normal data => Normal (js_nullish data body)
    | Throw e =>
        if is_TypeError e && strict_eq_string (err_message e) "Failed to fetch"
        then Throw network_error
        else Throw e
    end.
Proof.
  intros Hbase Hfetch Hok Hjson. unfold fetcher, fetcher_try.
  apply String.eqb_neq in Hbase. rewrite Hbase, Hfetch, Hok, Hjson. simpl.
  by destruct (read_property body "data").
Qed.

(** C7, as the code has it. For a successful response whose parsed body
    is not [null]: when the body has a [data] property that is neither
    [null] nor [undefined], the fetcher returns the value of that
    property; otherwise (no such property, as in an object without the
    key, an array, a number, a string or a boolean; or a [data] property
    that is [null]) it returns the body itself. *)
Theorem fetcher_unwraps_data
    (base : string) (fetch : string → fetch_outcome) (endpoint : string)
    (response : Response) (body : JsValue) :
  base ≠ EmptyString →
  fetch (base +:+ endpoint) = FetchResolved response →
  ok response = true →
  json response = Normal body →
  body ≠ JNull → body ≠ JUndefined →
  (js_get body "data" ≠ JNull → js_get body "data" ≠ JUndefined →
   fetcher (Some base) fetch endpoint = Normal (js_get body "data")) ∧
  (js_get body "data" = JNull ∨ js_get body "data" = JUndefined →
   fetcher (Some base) fetch endpoint = Normal body) ∧
  (∀ m, body = JObj m →
        js_get body "data" = default JUndefined (m !! "data")) ∧
  ((∀ m, body ≠ JObj m) → js_get body "data" = JUndefined).
Proof.
  intros Hbase Hfetch Hok Hjson Hnull Hundef.
  rewrite (fetcher_success base fetch endpoint response body) by done.
  assert (read_property body "data" = Normal (js_get body "data")) as ->
    by by destruct body.
  split; [|split; [|split]].
  - intros H1 H2. by destruct (js_get body "data").
  - by intros [->| ->].
  - by intros m ->.
  - intros Hnot. destruct body as [| | | | |l|m]; try done.
    by destruct (Hnot m).
Qed.

(** The theorem of C7 at an envelope around a list of one question, and
    at a bare list. *)
Lemma fetcher_unwraps_data_questions :
  fetcher (Some sample_base) (respond_with wrapped_questions) "/questions/1"
  = Normal (js_get wrapped_questions "data") ∧
  fetcher (Some sample_base) (respond_with (JArr [JNum 1])) "/questions/1"
  = Normal (JArr [JNum 1]).
Proof.
  split.
  - refine (proj1 (fetcher_unwraps_data sample_base (respond_with wrapped_questions)
                     "/questions/1"
                     {| ok := true; status := 200; statusText := "OK";
                        json := Normal wrapped_questions |} wrapped_questions
                     _ _ _ _ _ _) _ _);
      first [reflexivity | discriminate].
  - refine (proj1 (proj2 (fetcher_unwraps_data sample_base (respond_with (JArr [JNum 1]))
                     "/questions/1"
                     {| ok := true; status := 200; statusText := "OK";
                        json := Normal (JArr [JNum 1]) |} (JArr [JNum 1])
                     _ _ _ _ _ _)) _);
      first [reflexivity | discriminate | by right].
Defined.

Example fetcher_wrapped_and_bare :
  fetcher (Some sample_base) (respond_with wrapped_questions) "/questions/1"
  = Normal (JArr [JObj {[ "id" := JNum 1 ]}]) ∧
  fetcher (Some sample_base) (respond_with (JArr [JObj {[ "id" := JNum 1 ]}])) "/questions/1"
  = Normal (JArr [JObj {[ "id" := JNum 1 ]}]) ∧
  fetcher (Some sample_base) (respond_with (JNum 42)) "/questions/1" = Normal (JNum 42).
Proof. split_and!; reflexivity. Qed.

(** C7 as stated fails on an envelope whose [data] is [null]: the body
    exposes a [data] field, and the fetcher returns the envelope, not
    the value of the field. *)
Lemma fetcher_keeps_null_envelope :
  js_get wrapped_null "data" = JNull ∧
  fetcher (Some sample_base) (respond_with wrapped_null) "/questions/1"
  = Normal wrapped_null ∧
  fetcher (Some sample_base) (respond_with wrapped_null) "/questions/1"
  ≠ Normal (js_get wrapped_null "data").
Proof.
  split_and!; try reflexivity.
  intros H. vm_compute in H. discriminate H.
Qed.

(** A body that is [null] (the JSON text null): reading [data] from it
    throws, the [catch] block rethrows, and [getProduct] rejects. The
    test 'should return fallback product for invalid input' expects the
    fallback product here. *)
Example fetcher_null_body :
  fetcher (Some sample_base) (respond_with JNull) "/products/1"
  = Throw {| err_class := TypeError;
             err_message := JStr "Cannot read properties of null (reading 'data')" |} ∧
  getProduct (Some sample_base) (respond_with JNull) 1
  = Throw {| err_class := TypeError;
             err_message := JStr "Cannot read properties of null (reading 'data')" |}.
Proof. split; reflexivity. Qed.

(** [getQuestions] gives an array whatever the payload is, as in the test
    'should return empty array for non-array response'. *)
Example getQuestions_array :
  getQuestions (Some sample_base) (respond_with wrapped_null) 1 = Normal (JArr []) ∧
  getQuestions (Some sample_base) (respond_with wrapped_questions) 1
  = Normal (JArr [JObj {[ "id" := JNum 1 ]}]).
Proof. split; reflexivity. Qed.

Example fetcher_errors :
  fetcher None (respond_with JNull) "/products" ≠ Normal JNull ∧
  fetcher (Some sample_base)
          (λ _, FetchRejected {| err_class := TypeError;
                                 err_message := JStr "Failed to fetch" |}) "/products"
  = Throw network_error ∧
  fetcher (Some sample_base)
          (λ _, FetchResolved {| ok := false; status := 404; statusText := "Not Found";
                                 json := Normal (JObj {[ "message" := JStr "Product not found" ]}) |})
          "/products/999"
  = Throw {| err_class := PlainError; err_message := JStr "Product not found" |} ∧
  fetcher (Some sample_base)
          (λ _, FetchResolved {| ok := false; status := 500;
                                 statusText := "Internal Server Error";
                                 json := Throw {| err_class := SyntaxError;
                                                  err_message := JStr "Invalid JSON" |} |})
          "/products/999"
  = Throw {| err_class := PlainError;
             err_message := JStr "Request failed with status 500 (Internal Server Error)" |}.
Proof. split_and!; [discriminate|reflexivity..]. Qed.

(* ===================================================================== *)
(** * The discount (ProductOfferInfo.tsx, lines 76-77) *)
(* ===================================================================== *)

(** [round_half_up v k] is the integer nearest to [v / 2 ^ k]; of two
    nearest integers it is the larger. *)
Lemma round_half_up_nearest v k :
  0 <= k →
  let n := round_half_up v k in
  2 ^ k * (2 * n - 1) <= 2 * v < 2 ^ k * (2 * n + 1).
Proof.
  intros Hk n. subst n. unfold round_half_up.
  assert (0 < 2 ^ k) as Hpos by (apply Z.pow_pos_nonneg; lia).
  replace (2 ^ (k + 1)) with (2 * 2 ^ k)
    by (rewrite Z.pow_add_r by lia; change (2 ^ 1) with 2; lia).
  pose proof (Z.div_mod (2 * v + 2 ^ k) (2 * 2 ^ k) ltac:(lia)) as Hdm.
  pose proof (Z.mod_pos_bound (2 * v + 2 ^ k) (2 * 2 ^ k) ltac:(lia)) as Hb.
  set (q := (2 * v + 2 ^ k) / (2 * 2 ^ k)) in *.
  set (r := (2 * v + 2 ^ k) mod (2 * 2 ^ k)) in *.
  nia.
Qed.

Lemma Math_round_finite x s m e :
  Prim2SF x = S754_finite s m e → e < 0 →
  Math_round x = integral_float s (round_half_up (signed_mantissa s m) (- e)).
Proof.
  intros Hx He. unfold Math_round. rewrite Hx.
  destruct (Z.leb_spec 0 e); [lia|done].
Qed.

Lemma Math_round_not_negative x :
  (∀ m e, Prim2SF x ≠ S754_finite true m e) → Math_round x = spec_round x.
Proof.
  intros Hx. unfold Math_round, spec_round.
  destruct (Prim2SF x) as [| | |s m e] eqn:Hsf; try done.
  destruct s; [by destruct (Hx m e)|].
  by unfold round_half_away.
Qed.

(** C5, as the code has it. The discount is 0 unless the original price
    and the price are both truthy numbers (present, not null, not 0, not
    NaN); when they are, it is [Math.round] of the binary64 value of
    ((originalPrice - price) / originalPrice) * 100. [Math.round] gives
    the nearest integer and, on a tie, the one toward +∞; on a number
    that is not negative this is rounding half away from zero. The
    component computes it for the pricing of the selected variant in the
    current currency, and renders nothing when there is none. A price of
    800 with an original price of 1000 gives 20; a missing original
    price gives 0. *)
Theorem discount_spec :
  (∀ pr, truthy_number (originalPrice pr) = false ∨ truthy_number (price pr) = false →
         discount pr = 0%float) ∧
  (∀ pr o p,
      originalPrice pr = Some o → price pr = Some p →
      number_truthy o = true → number_truthy p = true →
      discount pr = Math_round (((o - p) / o) * 100)%float) ∧
  (∀ x s m e,
      Prim2SF x = S754_finite s m e → e < 0 →
      ∃ n, Math_round x = integral_float s n ∧
           2 ^ (- e) * (2 * n - 1) <= 2 * signed_mantissa s m < 2 ^ (- e) * (2 * n + 1)) ∧
  (∀ x, (∀ m e, Prim2SF x ≠ S754_finite true m e) → Math_round x = spec_round x) ∧
  (∀ v currency,
      offer_discount (Some v) currency = discount <$> pricing v !! currency) ∧
  discount (pricing_of 800 (Some 1000%float)) = 20%float ∧
  discount (pricing_of 800 None) = 0%float.
Proof.
  split_and!; try reflexivity.
  - intros pr H. unfold discount, truthy_number in *.
    destruct (originalPrice pr) as [o|], (price pr) as [p|]; try done.
    destruct H as [-> | ->]; [done|]. by rewrite andb_false_r.
  - intros pr o p Ho Hp Hto Htp. unfold discount. by rewrite Ho, Hp, Hto, Htp.
  - intros x s m e Hx He. eexists. split; [by apply Math_round_finite|].
    apply round_half_up_nearest. lia.
  - apply Math_round_not_negative.
Qed.

(** The theorem of C5 at an absent original price, at a price of 0, at
    the prices of P6, and at the number -12.5. *)
Lemma discount_spec_guard :
  discount (pricing_of 800 None) = 0%float ∧
  discount (pricing_of 0 (Some 1000%float)) = 0%float ∧
  discount (pricing_of 800 (Some 1000%float))
  = Math_round (((1000 - 800) / 1000) * 100)%float ∧
  ∃ n, Math_round (-12.5)%float = integral_float true n ∧
       2 ^ 49 * (2 * n - 1) <= 2 * Zneg 7036874417766400 < 2 ^ 49 * (2 * n + 1).
Proof.
  split_and!.
  - apply (proj1 discount_spec (pricing_of 800 None)). left. reflexivity.
  - apply (proj1 discount_spec (pricing_of 0 (Some 1000%float))). right. reflexivity.
  - apply (proj1 (proj2 discount_spec) (pricing_of 800 (Some 1000%float)));
      reflexivity.
  - apply (proj1 (proj2 (proj2 discount_spec)) (-12.5)%float true 7036874417766400%positive
             (-49)); [reflexivity | lia].
Defined.

(** C5 as stated fails. At a price of 0 with an original price of 1000
    both are present and the original price is positive: the formula of
    the specification gives 100, the code gives 0, because a price of 0
    is falsy. At a price of 9 with an original price of 8 the quotient
    is -12.5: half away from zero is -13, [Math.round] gives -12. At a
    price of 1 with an original price of -8 the specification gives 0,
    the code rounds 112.5 to 113, because -8 is truthy. *)
Lemma discount_diverges :
  discount (pricing_of 0 (Some 1000%float)) = 0%float ∧
  spec_discountPercent (pricing_of 0 (Some 1000%float)) = 100%float ∧
  discount (pricing_of 0 (Some 1000%float))
  ≠ spec_discountPercent (pricing_of 0 (Some 1000%float)) ∧
  (((8 - 9) / 8) * 100)%float = (-12.5)%float ∧
  discount (pricing_of 9 (Some 8%float)) = (-12)%float ∧
  spec_discountPercent (pricing_of 9 (Some 8%float)) = (-13)%float ∧
  discount (pricing_of 1 (Some (-8)%float)) = 113%float ∧
  spec_discountPercent (pricing_of 1 (Some (-8)%float)) = 0%float.
Proof.
  split_and!; try reflexivity.
  intros H. apply (f_equal Prim2SF) in H. vm_compute in H. discriminate H.
Qed.

(** The quotient is a binary64 number: for a price of 855 and an
    original price of 1000 it is just below 14.5, and the discount is 14. *)
Example discount_binary64 :
  (((1000 - 855) / 1000) * 100)%float = 0x1.cffffffffffffp+3%float ∧
  discount (pricing_of 855 (Some 1000%float)) = 14%float.
Proof. split; reflexivity. Qed.

(* ===================================================================== *)
(** * More on the fetcher and the getters of api.ts *)
(* ===================================================================== *)

Lemma fetcher_configured base fetch endpoint :
  base ≠ EmptyString →
  fetcher (Some base) fetch endpoint
  = match fetcher_try base fetch endpoint with
    | Normal v => Normal v
    | Throw error =>
        if is_TypeError error && strict_eq_string (err_message error) "Failed to fetch"
        then Throw network_error
        else Throw error
    end.
Proof.
  intros Hbase. unfold fetcher. apply String.eqb_neq in Hbase. by rewrite Hbase.
Qed.

Lemma fetcher_Normal_configured API_BASE_URL fetch endpoint v :
  fetcher API_BASE_URL fetch endpoint = Normal v →
  ∃ base, API_BASE_URL = Some base ∧ base ≠ EmptyString ∧
          fetcher_try base fetch endpoint = Normal v.
Proof.
  unfold fetcher. destruct API_BASE_URL as [base|]; [|discriminate].
  destruct (String.eqb_spec base EmptyString) as [->|Hbase]; [discriminate|].
  intros H. exists base. split; [done|]. split; [done|].
  destruct (fetcher_try base fetch endpoint); [done|].
  by destruct (_ && _).
Qed.

Lemma throw_never_Normal {A : Type} (e : completion JsError) (v : A) :
  throw e ≠ Normal v.
Proof. by destruct e. Qed.

Lemma throw_new_Error_text (A : Type) (text : string) :
  @throw A (new_Error (JStr text))
  = Throw {| err_class := PlainError; err_message := JStr text |}.
Proof. reflexivity. Qed.



(** X2. Without a base address (unset, or the empty string) every getter
    rejects with the configuration error, whatever the network would
    have answered. *)
Theorem unconfigured_api_rejects
    (Object_values : gmap string JsValue → list JsValue)
    (API_BASE_URL : option string) (fetch : string → fetch_outcome) (id : Z) :
  unset API_BASE_URL →
  getProducts Object_values API_BASE_URL fetch = Throw config_error ∧
  getProduct API_BASE_URL fetch id = Throw config_error ∧
  getProductOffer API_BASE_URL fetch id = Throw config_error ∧
  getQuestions API_BASE_URL fetch id = Throw config_error ∧
  getReviews API_BASE_URL fetch id = Throw config_error ∧
  getPaymentMethods API_BASE_URL fetch id = Throw config_error ∧
  getSeller API_BASE_URL fetch id = Throw config_error.
Proof.
  assert (∀ endpoint, unset API_BASE_URL →
            fetcher API_BASE_URL fetch endpoint = Throw config_error) as Hf.
  { intros endpoint [-> | ->]; reflexivity. }
  intros Hunset.
  unfold getProducts, getProduct, getProductOffer, getQuestions, getReviews,
    getPaymentMethods, getSeller.
  by rewrite !Hf.
Qed.

Lemma unconfigured_api_rejects_sample :
  getProducts values_in_key_order None (respond_with wrapped_questions) = Throw config_error ∧
  getProduct None (respond_with wrapped_questions) 1 = Throw config_error ∧
  getProductOffer None (respond_with wrapped_questions) 1 = Throw config_error ∧
  getQuestions None (respond_with wrapped_questions) 1 = Throw config_error ∧
  getReviews None (respond_with wrapped_questions) 1 = Throw config_error ∧
  getPaymentMethods None (respond_with wrapped_questions) 1 = Throw config_error ∧
  getSeller None (respond_with wrapped_questions) 1 = Throw config_error.
Proof.
  apply (unconfigured_api_rejects values_in_key_order None
           (respond_with wrapped_questions) 1).
  by left.
Defined.

(** X3. The transport failure of [fetch] never reaches the caller as it
    is: an error that the fetcher throws is never the [TypeError] with
    the message 'Failed to fetch'; when [fetch] rejects with that error,
    the fetcher throws the network error in its place. *)
Theorem fetcher_hides_transport_failure
    (API_BASE_URL : option string) (fetch : string → fetch_outcome)
    (endpoint : string) :
  (∀ e, fetcher API_BASE_URL fetch endpoint = Throw e →
        is_TypeError e && strict_eq_string (err_message e) "Failed to fetch" = false) ∧
  (∀ base, API_BASE_URL = Some base → base ≠ EmptyString →
           fetch (base +:+ endpoint)
           = FetchRejected {| err_class := TypeError;
                              err_message := JStr "Failed to fetch" |} →
           fetcher API_BASE_URL fetch endpoint = Throw network_error).
Proof.
  split.
  - intros e. unfold fetcher.
    destruct API_BASE_URL as [base|]; [|by intros [= <-]].
    destruct (String.eqb base EmptyString); [by intros [= <-]|].
    destruct (fetcher_try base fetch endpoint) as [v|error]; [discriminate|].
    destruct (is_TypeError error && _) eqn:Hcond; by intros [= <-].
  - intros base -> Hbase Hfetch. rewrite fetcher_configured by done.
    unfold fetcher_try. by rewrite Hfetch.
Qed.

Lemma fetcher_hides_transport_failure_offline :
  fetcher (Some sample_base)
          (λ _, FetchRejected {| err_class := TypeError;
                                 err_message := JStr "Failed to fetch" |}) "/products"
  = Throw network_error ∧
  is_TypeError network_error
  && strict_eq_string (err_message network_error) "Failed to fetch" = false.
Proof.
  pose proof (fetcher_hides_transport_failure (Some sample_base)
                (λ _, FetchRejected {| err_class := TypeError;
                                       err_message := JStr "Failed to fetch" |})
                "/products") as [Hnever Hoffline].
  split.
  - apply (Hoffline sample_base); [reflexivity | discriminate | reflexivity].
  - apply Hnever. reflexivity.
Defined.

Lemma JsValue_array_ind (P : JsValue → Prop) :
  P JUndefined → P JNull → (∀ b, P (JBool b)) → (∀ x, P (JNum x)) → (∀ s, P (JStr s)) →
  (∀ items, Forall P items → P (JArr items)) → (∀ fields, P (JObj fields)) →
  ∀ v, P v.
Proof.
  intros H1 H2 H3 H4 H5 H6 H7. fix IH 1.
  intros [| |b|x|s|items|fields];
    [exact H1 | exact H2 | apply H3 | apply H4 | apply H5 | | apply H7].
  apply H6. induction items as [|x items IHitems]; constructor; [apply IH|apply IHitems].
Qed.

Lemma Array_join_error (element_text : JsValue → completion string)
    (first : bool) (l : list JsValue) (e : JsError) :
  Forall (λ x, ∀ e, element_text x = Throw e → e = conversion_error) l →
  Array_join element_text first l = Throw e → e = conversion_error.
Proof.
  intros Hl. revert first. induction Hl as [|x l Hx Hl IH]; intros first; simpl;
    [discriminate|].
  destruct (match x with JUndefined | JNull => Normal EmptyString | _ => element_text x end)
    as [text|e'] eqn:Hconv.
  - destruct (Array_join element_text false l) as [rest|e''] eqn:Hrest; [discriminate|].
    intros [= <-]. by apply (IH false).
  - intros [= <-]. destruct x; try discriminate; by apply Hx.
Qed.

Lemma ToString_error (v : JsValue) (e : JsError) :
  ToString v = Throw e → e = conversion_error.
Proof.
  revert e. induction v as [| |b|x|s|items IH|fields] using JsValue_array_ind;
    intros e; simpl; try discriminate.
  - by apply Array_join_error.
  - destruct (fields !! "toString"); [by intros [= <-]|discriminate].
Qed.

(** X4. A response whose status is not ok never yields a value: the
    fetcher throws. When the body parses and it and its [message] are
    truthy, the error is a plain [Error] whose message is the string that
    [String] gives for that [message] (the text itself for a string, the
    decimal notation for a number), or the [TypeError] of that conversion
    when it has none; when the body parses without such a message, the
    message is the status line; and when the body is not JSON, the status
    line followed by the status text. *)
Theorem fetcher_http_error
    (base : string) (fetch : string → fetch_outcome) (endpoint : string)
    (response : Response) :
  base ≠ EmptyString →
  fetch (base +:+ endpoint) = FetchResolved response →
  ok response = false →
  let line := "Request failed with status " +:+ pretty (status response) in
  (∀ v, fetcher (Some base) fetch endpoint ≠ Normal v) ∧
  (∀ errorInfo, json response = Normal errorInfo →
      ToBoolean errorInfo = true → ToBoolean (js_get errorInfo "message") = true →
      (∀ text, ToString (js_get errorInfo "message") = Normal text →
         fetcher (Some base) fetch endpoint
         = Throw {| err_class := PlainError; err_message := JStr text |}) ∧
      (∀ text, js_get errorInfo "message" = JStr text →
         fetcher (Some base) fetch endpoint
         = Throw {| err_class := PlainError; err_message := JStr text |}) ∧
      (∀ x, js_get errorInfo "message" = JNum x →
         fetcher (Some base) fetch endpoint
         = Throw {| err_class := PlainError; err_message := JStr (Number_toString x) |}) ∧
      (∀ e, ToString (js_get errorInfo "message") = Throw e →
         fetcher (Some base) fetch endpoint = Throw e ∧ err_class e = TypeError)) ∧
  (∀ errorInfo, json response = Normal errorInfo →
      ToBoolean errorInfo = false ∨ ToBoolean (js_get errorInfo "message") = false →
      fetcher (Some base) fetch endpoint
      = Throw {| err_class := PlainError; err_message := JStr line |}) ∧
  (∀ e, json response = Throw e →
      fetcher (Some base) fetch endpoint
      = Throw {| err_class := PlainError;
                 err_message := JStr (line +:+ " (" +:+ statusText response +:+ ")") |}).
Proof.
  intros Hbase Hfetch Hok line.
  assert (fetcher_try base fetch endpoint
          = throw (new_Error
              match json response with
              | Normal errorInfo =>
                  if ToBoolean errorInfo && ToBoolean (js_get errorInfo "message")
                  then js_get errorInfo "message" else JStr line
              | Throw _ => JStr (line +:+ " (" +:+ statusText response +:+ ")")
              end)) as Htry.
  { unfold fetcher_try. by rewrite Hfetch, Hok. }
  assert (∀ text,
            fetcher_try base fetch endpoint
            = Throw {| err_class := PlainError; err_message := JStr text |} →
            fetcher (Some base) fetch endpoint
            = Throw {| err_class := PlainError; err_message := JStr text |}) as Hplain.
  { intros text Heq. rewrite fetcher_configured by done. by rewrite Heq. }
  assert (∀ message text,
            message ≠ JUndefined → ToString message = Normal text →
            @throw JsValue (new_Error message)
            = Throw {| err_class := PlainError; err_message := JStr text |}) as Hnew.
  { intros message text Hm Htext. unfold new_Error. rewrite Htext. by destruct message. }
  split_and!.
  - intros v. rewrite fetcher_configured by done. rewrite Htry.
    destruct (throw _) as [v'|error] eqn:Hthrow; [by apply throw_never_Normal in Hthrow|].
    by destruct (_ && _).
  - intros errorInfo Hjson H1 H2. rewrite Hjson, H1, H2 in Htry. simpl in Htry.
    assert (js_get errorInfo "message" ≠ JUndefined) as Hdefined
      by (intros Heq; by rewrite Heq in H2).
    split_and!.
    + intros text Htext. apply Hplain. rewrite Htry. by apply Hnew.
    + intros text Heq. apply Hplain. rewrite Htry. apply Hnew; [done|]. by rewrite Heq.
    + intros x Heq. apply Hplain. rewrite Htry. apply Hnew; [done|]. by rewrite Heq.
    + intros e Hfail. pose proof (ToString_error _ _ Hfail) as ->. split; [|done].
      rewrite fetcher_configured by done. rewrite Htry. unfold new_Error. rewrite Hfail.
      by destruct (js_get errorInfo "message").
  - intros errorInfo Hjson H. apply Hplain. rewrite Htry, Hjson.
    destruct H as [-> | ->]; [done|]. by rewrite andb_false_r.
  - intros e Hjson. apply Hplain. by rewrite Htry, Hjson.
Qed.

Lemma fetcher_http_error_404 :
  let response := {| ok := false; status := 404; statusText := "Not Found";
                     json := Normal (JObj {[ "message" := JStr "Product not found" ]}) |} in
  (∀ v, fetcher (Some sample_base) (λ _, FetchResolved response) "/products/999" ≠ Normal v) ∧
  fetcher (Some sample_base) (λ _, FetchResolved response) "/products/999"
  = Throw {| err_class := PlainError; err_message := JStr "Product not found" |}.
Proof.
  intros response.
  destruct (fetcher_http_error sample_base (λ _, FetchResolved response) "/products/999"
              response) as (Hnever & Hmessage & _); [discriminate | reflexivity..|].
  split; [exact Hnever|].
  destruct (Hmessage (JObj {[ "message" := JStr "Product not found" ]}))
    as (_ & Htext & _); [reflexivity..|].
  by apply Htext.
Defined.

(** Messages that are not strings. *)
Example fetcher_http_error_messages :
  fetcher (Some sample_base) (fail_with (JNum 42)) "/products/1"
  = Throw {| err_class := PlainError; err_message := JStr "42" |} ∧
  fetcher (Some sample_base) (fail_with (JNum 0.5)) "/products/1"
  = Throw {| err_class := PlainError; err_message := JStr "0.5" |} ∧
  fetcher (Some sample_base) (fail_with (JBool true)) "/products/1"
  = Throw {| err_class := PlainError; err_message := JStr "true" |} ∧
  fetcher (Some sample_base)
    (fail_with (JArr [JNum 1; JNull; JStr "a"; JArr [JNum 2; JNum 3]])) "/products/1"
  = Throw {| err_class := PlainError; err_message := JStr "1,,a,2,3" |} ∧
  fetcher (Some sample_base) (fail_with (JObj {[ "code" := JNum 7 ]})) "/products/1"
  = Throw {| err_class := PlainError; err_message := JStr "[object Object]" |} ∧
  fetcher (Some sample_base) (fail_with (JObj {[ "toString" := JNum 7 ]})) "/products/1"
  = Throw conversion_error ∧
  fetcher (Some sample_base) (fail_with (JNum 0)) "/products/1"
  = Throw {| err_class := PlainError; err_message := JStr "Request failed with status 500" |}.
Proof. split_and!; by vm_compute. Qed.

(** The notation of numbers: what [String] gives for the number that a
    JSON numeral denotes. *)
Example Number_toString_samples :
  (λ numeral, ToString <$> JSON_parse numeral)
    <$> ["42"; "0.5"; "-1.5"; "100"; "4.350"; "1e21"; "100000000000000000000000";
         "0.0000001"; "0.000001"; "123.456"; "9007199254740993"; "5e-324";
         "0.30000000000000004"; "1e999"; "-0"]
  = (λ text, Some (Normal text))
    <$> ["42"; "0.5"; "-1.5"; "100"; "4.35"; "1e+21"; "1e+23";
         "1e-7"; "0.000001"; "123.456"; "9007199254740992"; "5e-324";
         "0.30000000000000004"; "Infinity"; "0"].
Proof. by vm_compute. Qed.

(** X5. When [getQuestions] resolves, it resolves to an array: the
    payload itself when that is an array, the empty array for any other
    payload; and it rejects exactly when the fetcher does. *)
Theorem getQuestions_always_array
    (API_BASE_URL : option string) (fetch : string → fetch_outcome) (id : Z) :
  (∀ v, getQuestions API_BASE_URL fetch id = Normal v →
        ∃ items, v = JArr items ∧
                 ∃ data, fetcher API_BASE_URL fetch ("/questions/" +:+ pretty id) = Normal data ∧
                         (Array_isArray data = true → v = data) ∧
                         (Array_isArray data = false → items = [])) ∧
  (∀ e, getQuestions API_BASE_URL fetch id = Throw e ↔
        fetcher API_BASE_URL fetch ("/questions/" +:+ pretty id) = Throw e).
Proof.
  unfold getQuestions.
  destruct (fetcher API_BASE_URL fetch _) as [data|e'].
  - split; [|by split].
    intros v [= <-]. destruct data; simpl;
      eexists; (split; [reflexivity|]); eexists; (split; [reflexivity|]); by split.
  - split; [discriminate|]. intros e. by split; intros [= <-].
Qed.

Lemma getQuestions_always_array_sample :
  ∃ items, JArr [] = JArr items ∧
    ∃ data, fetcher (Some sample_base) (respond_with wrapped_null) ("/questions/" +:+ pretty 1)
            = Normal data ∧
            (Array_isArray data = true → JArr [] = data) ∧
            (Array_isArray data = false → items = []).
Proof.
  apply (proj1 (getQuestions_always_array (Some sample_base) (respond_with wrapped_null) 1)).
  reflexivity.
Defined.

(* ===================================================================== *)
(** * More on the normaliser *)
(* ===================================================================== *)

Lemma transformProduct_result raw :
  typeof (transformProduct raw) = "object" ∧
  ToBoolean (transformProduct raw) = true ∧
  Array_isArray (js_get (transformProduct raw) "images") = true ∧
  ∀ f, f ∈ json_fields → ToBoolean (js_get (transformProduct raw) f) = true.
Proof.
  destruct (transformProduct_shape raw)
    as [->|(m0 & I & B & Be & Sh & P & S & -> & HI & Htruthy)].
  - split_and!; try reflexivity.
    intros f Hf. unfold json_fields in Hf.
    repeat (apply elem_of_cons in Hf as [->|Hf]); [reflexivity..|inversion Hf].
  - destruct (normalised_lookups m0 I B Be Sh P S) as (Hi & Hb & Hbe & Hsh & Hp & Hs).
    apply Forall_cons in Htruthy as [HB Htruthy].
    apply Forall_cons in Htruthy as [HBe Htruthy].
    apply Forall_cons in Htruthy as [HSh Htruthy].
    apply Forall_cons in Htruthy as [HP Htruthy].
    apply Forall_cons in Htruthy as [HS _].
    split_and!; try reflexivity.
    + cbn [js_get]. by rewrite Hi.
    + intros f Hf. unfold json_fields in Hf. cbn [js_get].
      repeat (apply elem_of_cons in Hf as [->|Hf]); [..|inversion Hf].
      * by rewrite Hb.
      * by rewrite Hbe.
      * by rewrite Hsh.
      * by rewrite Hp.
      * by rewrite Hs.
Qed.

(** X6. Whatever it is given, [transformProduct] returns an object whose
    images are an array and whose breadcrumbs, benefits, shipping, pickup
    and specs are truthy (so that none of them is null, undefined or an
    empty string); and so does every product [getProduct] resolves to. *)
Theorem transformProduct_normal_form :
  (∀ raw,
      typeof (transformProduct raw) = "object" ∧
      ToBoolean (transformProduct raw) = true ∧
      Array_isArray (js_get (transformProduct raw) "images") = true ∧
      ∀ f, f ∈ json_fields → ToBoolean (js_get (transformProduct raw) f) = true) ∧
  (∀ API_BASE_URL fetch id p,
      getProduct API_BASE_URL fetch id = Normal p →
      typeof p = "object" ∧ Array_isArray (js_get p "images") = true ∧
      ∀ f, f ∈ json_fields → ToBoolean (js_get p f) = true).
Proof.
  split; [exact transformProduct_result|].
  intros API_BASE_URL fetch id p. unfold getProduct.
  destruct (fetcher _ _ _) as [data|e]; [|discriminate].
  intros [= <-]. destruct (transformProduct_result data) as (? & ? & ? & ?).
  by split_and!.
Qed.

Lemma transformProduct_normal_form_sample :
  typeof (transformProduct double_encoded_product) = "object" ∧
  Array_isArray (js_get (transformProduct double_encoded_product) "images") = true ∧
  ∀ f, f ∈ json_fields → ToBoolean (js_get (transformProduct double_encoded_product) f) = true.
Proof.
  apply (proj2 transformProduct_normal_form (Some sample_base)
           (respond_with double_encoded_product) 1).
  reflexivity.
Defined.

(** X7. The normaliser adds to an object and takes nothing away: every
    property other than the six parsed fields has, in the result, the
    value it had in the raw object. *)
Theorem transformProduct_passes_through (m : gmap string JsValue) (k : string) :
  k ∉ parsed_fields →
  js_get (transformProduct (JObj m)) k = js_get (JObj m) k.
Proof.
  intros Hk. unfold parsed_fields in Hk.
  apply not_elem_of_cons in Hk as [H1 Hk]. apply not_elem_of_cons in Hk as [H2 Hk].
  apply not_elem_of_cons in Hk as [H3 Hk]. apply not_elem_of_cons in Hk as [H4 Hk].
  apply not_elem_of_cons in Hk as [H5 Hk]. apply not_elem_of_cons in Hk as [H6 _].
  unfold transformProduct. cbn [ToBoolean typeof negb orb String.eqb Ascii.eqb Bool.eqb andb].
  cbn [js_get spread].
  by rewrite !lookup_insert_ne by done.
Qed.

Lemma transformProduct_passes_through_title :
  js_get (transformProduct encoded_product) "title" = js_get encoded_product "title".
Proof.
  apply (transformProduct_passes_through _ "title").
  unfold parsed_fields. intros H.
  repeat (apply elem_of_cons in H as [H|H]; [discriminate H|]). inversion H.
Defined.

Lemma normalised_same_base f x y m I B Be Sh P S :
  f ∈ parsed_fields →
  normalised (<[f := x]> m) I B Be Sh P S = normalised (<[f := y]> m) I B Be Sh P S.
Proof.
  intros Hf. apply map_eq. intros k. unfold normalised.
  destruct (decide (k = "specs")) as [->|];
    [by rewrite !lookup_insert_eq|rewrite !(lookup_insert_ne _ "specs") by done].
  destruct (decide (k = "pickup")) as [->|];
    [by rewrite !lookup_insert_eq|rewrite !(lookup_insert_ne _ "pickup") by done].
  destruct (decide (k = "shipping")) as [->|];
    [by rewrite !lookup_insert_eq|rewrite !(lookup_insert_ne _ "shipping") by done].
  destruct (decide (k = "benefits")) as [->|];
    [by rewrite !lookup_insert_eq|rewrite !(lookup_insert_ne _ "benefits") by done].
  destruct (decide (k = "breadcrumbs")) as [->|];
    [by rewrite !lookup_insert_eq|rewrite !(lookup_insert_ne _ "breadcrumbs") by done].
  destruct (decide (k = "images")) as [->|];
    [by rewrite !lookup_insert_eq|rewrite !(lookup_insert_ne _ "images") by done].
  assert (f ≠ k) as Hfk.
  { intros ->. unfold parsed_fields in Hf.
    repeat (apply elem_of_cons in Hf as [?|Hf]; [done|]). inversion Hf. }
  by rewrite !lookup_insert_ne.
Qed.

Lemma transformProduct_object m :
  transformProduct (JObj m)
  = JObj (normalised m
            (if Array_isArray (parseJsonField (default JUndefined (m !! "images")))
             then parseJsonField (default JUndefined (m !! "images")) else JArr [])
            (js_or (parseJsonField (default JUndefined (m !! "breadcrumbs")))
                   default_breadcrumbs)
            (js_or (parseJsonField (default JUndefined (m !! "benefits"))) (JArr []))
            (js_or (parseJsonField (default JUndefined (m !! "shipping"))) (JObj ∅))
            (js_or (parseJsonField (default JUndefined (m !! "pickup"))) (JObj ∅))
            (js_or (parseJsonField (default JUndefined (m !! "specs"))) default_specs)).
Proof. reflexivity. Qed.

Lemma parseJsonField_text s v : JSON_parse s = Some v → parseJsonField (JStr s) = v.
Proof. intros H. unfold parseJsonField. by rewrite H. Qed.

(** X8. A field may arrive as a structured value or as the JSON text of
    that value: for each of the six parsed fields, a raw object carrying
    a text that parses to a value that is not a string normalises to the
    same product as the raw object carrying that value. *)
Theorem transformProduct_text_or_value
    (m : gmap string JsValue) (f s : string) (v : JsValue) :
  f ∈ parsed_fields → JSON_parse s = Some v → typeof v ≠ "string" →
  transformProduct (JObj (<[f := JStr s]> m)) = transformProduct (JObj (<[f := v]> m)).
Proof.
  intros Hf Hparse Hv. rewrite !transformProduct_object.
  assert (∀ g, parseJsonField (default JUndefined (<[f := JStr s]> m !! g))
               = parseJsonField (default JUndefined (<[f := v]> m !! g))) as Hsame.
  { intros g. destruct (decide (f = g)) as [->|Hfg].
    - rewrite !lookup_insert_eq. simpl default.
      by rewrite (parseJsonField_text s v), parseJsonField_structured.
    - by rewrite !lookup_insert_ne. }
  rewrite !Hsame. f_equal. by apply normalised_same_base.
Qed.

Lemma transformProduct_text_or_value_specs :
  transformProduct
    (JObj (<["specs" := JStr ("{" +:+ quoted "highlighted" +:+ ":[],"
                              +:+ quoted "featureGroups" +:+ ":[]}")]> ∅))
  = transformProduct (JObj (<["specs" := default_specs]> ∅)).
Proof.
  apply (transformProduct_text_or_value ∅ "specs" _ default_specs).
  - unfold parsed_fields. set_solver.
  - reflexivity.
  - discriminate.
Defined.

(** X9. A parsed field that is missing, null, or a text that is not JSON
    never surfaces as such and never makes the normaliser fail: the
    field gets its default (the empty array for images and benefits, an
    empty path for breadcrumbs, empty lists for specs, the empty object
    for shipping and pickup). *)
Theorem transformProduct_defaults (m : gmap string JsValue) (f : string) :
  f ∈ parsed_fields →
  m !! f = None ∨ m !! f = Some JNull ∨
    (∃ s, m !! f = Some (JStr s) ∧ JSON_parse s = None) →
  js_get (transformProduct (JObj m)) f = field_default f.
Proof.
  intros Hf Hcase.
  assert (parseJsonField (default JUndefined (m !! f)) = JUndefined ∨
          parseJsonField (default JUndefined (m !! f)) = JNull) as Hparsed.
  { destruct Hcase as [-> | [-> | (s & -> & Hs)]]; simpl.
    - by left.
    - by right.
    - right. by rewrite Hs. }
  rewrite transformProduct_object. cbn [js_get].
  match goal with
  | |- context [normalised ?m0 ?I ?B ?Be ?Sh ?P ?S] =>
      destruct (normalised_lookups m0 I B Be Sh P S) as (Hi & Hb & Hbe & Hsh & Hp & Hs)
  end.
  unfold parsed_fields in Hf.
  repeat (apply elem_of_cons in Hf as [->|Hf]); [..|inversion Hf].
  - rewrite Hi. by destruct Hparsed as [-> | ->].
  - rewrite Hb. by destruct Hparsed as [-> | ->].
  - rewrite Hbe. by destruct Hparsed as [-> | ->].
  - rewrite Hsh. by destruct Hparsed as [-> | ->].
  - rewrite Hp. by destruct Hparsed as [-> | ->].
  - rewrite Hs. by destruct Hparsed as [-> | ->].
Qed.

Lemma transformProduct_defaults_invalid_text :
  js_get (transformProduct (JObj {[ "specs" := JStr "{malformed json" ]})) "specs"
  = field_default "specs" ∧
  js_get (transformProduct (JObj {[ "specs" := JStr "{malformed json" ]})) "images"
  = field_default "images".
Proof.
  split.
  - apply (transformProduct_defaults _ "specs"); [unfold parsed_fields; set_solver|].
    right. right. exists "{malformed json". split; reflexivity.
  - apply (transformProduct_defaults _ "images"); [unfold parsed_fields; set_solver|].
    left. reflexivity.
Defined.

(** X10. [getProducts] normalises every product of the payload. An array
    gives the normalised elements in their order; an object keyed by id
    gives one normalised product per key; any other payload (a string, a
    number, a boolean) gives the empty list. Every product of the result
    is an object whose images are an array. *)
Theorem getProducts_normalises
    (Object_values : gmap string JsValue → list JsValue)
    (API_BASE_URL : option string) (fetch : string → fetch_outcome) (data : JsValue) :
  (∀ m, Object_values m ≡ₚ (map_to_list m).*2) →
  fetcher API_BASE_URL fetch "/products" = Normal data →
  ∃ l,
    getProducts Object_values API_BASE_URL fetch = Normal l ∧
    Forall (λ p, typeof p = "object" ∧ Array_isArray (js_get p "images") = true) l ∧
    (∀ items, data = JArr items → l = transformProduct <$> items) ∧
    (∀ fields, data = JObj fields →
       length l = size fields ∧
       ∀ p, p ∈ l ↔ ∃ k raw, fields !! k = Some raw ∧ p = transformProduct raw) ∧
    ((∀ items, data ≠ JArr items) → (∀ fields, data ≠ JObj fields) → l = []).
Proof.
  intros Hvalues Hdata. unfold getProducts. rewrite Hdata.
  assert (∀ raws, Forall (λ p, typeof p = "object" ∧
                               Array_isArray (js_get p "images") = true)
                         (transformProduct <$> raws)) as Hall.
  { intros raws. apply Forall_fmap, Forall_forall. intros raw _. simpl.
    destruct (transformProduct_result raw) as (? & _ & ? & _). by split. }
  destruct data as [| | | | |items|fields];
    try (exists []; split; [done|]; split; [constructor|]; by split_and!).
  - exists (transformProduct <$> items). split; [done|]. split; [apply Hall|].
    split_and!; [by intros ? [= <-] | discriminate | intros H; by destruct (H items)].
  - exists (transformProduct <$> Object_values fields). split; [done|].
    split; [apply Hall|]. split_and!; [discriminate | | intros _ H; by destruct (H fields)].
    intros ? [= <-]. split.
    + by rewrite length_fmap, Hvalues, length_fmap, length_map_to_list.
    + intros p. rewrite list_elem_of_fmap. split.
      * intros (raw & -> & Hraw). rewrite Hvalues in Hraw.
        apply list_elem_of_fmap in Hraw as ([k raw'] & -> & Hk).
        apply elem_of_map_to_list in Hk. by exists k, raw'.
      * intros (k & raw & Hk & ->). exists raw. split; [done|]. rewrite Hvalues.
        apply list_elem_of_fmap. exists (k, raw). split; [done|].
        by apply elem_of_map_to_list.
Qed.

Lemma getProducts_normalises_keyed :
  ∃ l,
    getProducts values_in_key_order (Some sample_base)
      (respond_with (JObj {[ "1" := encoded_product ]})) = Normal l ∧
    Forall (λ p, typeof p = "object" ∧ Array_isArray (js_get p "images") = true) l ∧
    (∀ items, JObj {[ "1" := encoded_product ]} = JArr items →
              l = transformProduct <$> items) ∧
    (∀ fields, JObj {[ "1" := encoded_product ]} = JObj fields →
       length l = size fields ∧
       ∀ p, p ∈ l ↔ ∃ k raw, fields !! k = Some raw ∧ p = transformProduct raw) ∧
    ((∀ items, JObj {[ "1" := encoded_product ]} ≠ JArr items) →
     (∀ fields, JObj {[ "1" := encoded_product ]} ≠ JObj fields) → l = []).
Proof.
  apply (getProducts_normalises values_in_key_order (Some sample_base)
           (respond_with (JObj {[ "1" := encoded_product ]}))).
  - intros m. reflexivity.
  - reflexivity.
Defined.

Example getProducts_shapes :
  getProducts values_in_key_order (Some sample_base)
    (respond_with (JObj {[ "data" := JStr "invalid data" ]})) = Normal [] ∧
  getProducts values_in_key_order (Some sample_base)
    (respond_with (JArr [encoded_product; JNum 42]))
  = Normal [transformProduct encoded_product; fallback_product].
Proof. split; reflexivity. Qed.

(* ===================================================================== *)
(** * What the page shows after a detail batch *)
(* ===================================================================== *)

Lemma find_variant_head v vs : find_variant (v :: vs) (Some (v_id v)) = Some v.
Proof. unfold find_variant. simpl. by rewrite bool_decide_eq_true_2. Qed.



(** X12. When a batch resolves with an offer that has no variant, no
    variant is selected, whatever id was selected before, and the product
    page is not rendered: the component stays on its placeholder, or on
    the error screen when an error is pending. *)
Theorem no_variant_no_page (requested : Z) (r : DetailBatch) (st : AppState) :
  variants (offer r) = [] →
  let st' := fetchProductDetails_fulfilled requested r st in
  selectedVariantId st' = selectedVariantId st ∧
  selectedVariant st' = None ∧
  (truthy_string (error st) = false → render st' = Preparing) ∧
  ∀ overlay, render st' ≠ ProductPage overlay.
Proof.
  intros Hvs st'.
  assert (selectedVariant st' = None) as Hsel.
  { unfold selectedVariant, st'. simpl. by rewrite Hvs. }
  assert (selectedVariantId st' = selectedVariantId st) as Hid.
  { unfold st'. simpl. by rewrite Hvs. }
  split_and!; [done..| |].
  - intros Herr. unfold render. rewrite Hsel. subst st'. simpl. rewrite Herr.
    by rewrite !orb_true_r.
  - intros overlay. unfold render. rewrite Hsel. subst st'. simpl.
    destruct (truthy_string (error st)); [done|].
    by rewrite !orb_true_r.
Qed.

Lemma no_variant_no_page_sample :
  let st' := fetchProductDetails_fulfilled 7 empty_offer_batch
               (ready_state (sample_offer p4_variants) 1) in
  selectedVariantId st' = Some 1 ∧ selectedVariant st' = None ∧ render st' = Preparing.
Proof.
  intros st'.
  destruct (no_variant_no_page 7 empty_offer_batch
              (ready_state (sample_offer p4_variants) 1) eq_refl) as (H1 & H2 & H3 & _).
  split_and!; [exact H1 | exact H2 |]. by apply H3.
Defined.

Lemma rejected_shows_error (requested : Z) (errorMessage : string) (st : AppState) :
  let st' := fetchProductDetails_rejected requested errorMessage st in
  render st' = ErrorScreen ("Could not load product information. " +:+ errorMessage) ∧
  currentProduct st' = None ∧ currentOffer st' = None ∧ currentQuestions st' = [] ∧
  currentReviews st' = None ∧ currentPaymentMethods st' = None ∧
  currentSeller st' = None ∧ selectedVariant st' = None ∧ loading st' = false.
Proof. by split_and!. Qed.

Lemma render_pending_error st message :
  error st = Some message → message ≠ EmptyString → render st = ErrorScreen message.
Proof.
  intros He Hm. unfold render. rewrite He. simpl.
  apply String.eqb_neq in Hm. rewrite Hm. simpl. by rewrite andb_false_r.
Qed.

(** X13. A resolved batch does not clear an error. When the batch of a
    product rejects while the batch of the product selected after it is
    in flight, and that one then resolves, the state holds the details
    of the second product and the page is still the error screen of the
    first failure. *)
Theorem error_outlives_load
    (pg : Page) (A B : Z) (errorMessage : string) (rB : DetailBatch) :
  A ≠ 0 → B ≠ 0 → A ≠ B → currentProductId (app pg) ≠ Some A →
  (∀ requested r st,
      error (fetchProductDetails_fulfilled requested r st) = error st) ∧
  ∃ pg',
    run pg [SelectProduct A; SelectProduct B;
            BatchRejected A errorMessage; BatchFulfilled B rB] = Some pg' ∧
    currentProductId (app pg') = Some B ∧
    shows (app pg') rB ∧
    render (app pg')
    = ErrorScreen ("Could not load product information. " +:+ errorMessage).
Proof.
  intros HA HB HAB Hcur. split; [done|].
  set (pg1 := {| app := fetchProductDetails_start (handleSelectProduct A (app pg));
                 in_flight := in_flight pg ++ [A] |}).
  set (pg2 := {| app := fetchProductDetails_start (handleSelectProduct B (app pg1));
                 in_flight := in_flight pg1 ++ [B] |}).
  set (pg3 := {| app := fetchProductDetails_rejected A errorMessage (app pg2);
                 in_flight := remove_one A (in_flight pg2) |}).
  assert (step pg (SelectProduct A) = Some pg1) as H1
    by by apply step_SelectProduct_new.
  assert (step pg1 (SelectProduct B) = Some pg2) as H2.
  { apply step_SelectProduct_new; [done|]. simpl. congruence. }
  assert (step pg2 (BatchRejected A errorMessage) = Some pg3) as H3.
  { simpl. rewrite bool_decide_eq_true_2; [done|].
    rewrite !elem_of_app. left. right. left. }
  assert (B ∈ in_flight pg3) as HinB.
  { simpl. apply elem_of_remove_one; [done|]. rewrite !elem_of_app. right. left. }
  destruct (step_BatchFulfilled pg3 B rB HinB) as (pg4 & H4 & Hshows & Hid & _).
  exists pg4. split.
  { cbn [run]. rewrite H1. cbn [mbind option_bind]. rewrite H2. cbn [mbind option_bind].
    rewrite H3. cbn [mbind option_bind]. by rewrite H4. }
  split; [by rewrite Hid|]. split; [done|].
  apply render_pending_error; [|done].
  simpl in H4. rewrite bool_decide_eq_true_2 in H4 by done.
  by injection H4 as <-.
Qed.

Lemma error_outlives_load_sample :
  ∃ pg',
    run initial_page [SelectProduct 1; SelectProduct 2;
                      BatchRejected 1 "Request failed with status 500";
                      BatchFulfilled 2 (sample_batch 2 "Phone B")] = Some pg' ∧
    currentProductId (app pg') = Some 2 ∧
    shows (app pg') (sample_batch 2 "Phone B") ∧
    render (app pg')
    = ErrorScreen "Could not load product information. Request failed with status 500".
Proof.
  apply (proj2 (error_outlives_load initial_page 1 2 "Request failed with status 500"
                  (sample_batch 2 "Phone B") ltac:(lia) ltac:(lia) ltac:(lia)
                  ltac:(discriminate))).
Defined.

(* ===================================================================== *)
(** * The option buttons and the variant they select *)
(* ===================================================================== *)

Lemma elem_of_Set_from {A} `{EqDecision A} (seen l : list A) (x : A) :
  x ∈ Set_from seen l ↔ x ∈ l ∧ x ∉ seen.
Proof.
  revert seen. induction l as [|y l IH]; intros seen; simpl.
  - split; [intros H0; inversion H0 | intros [H0 _]; inversion H0].
  - case_bool_decide as Hy.
    + rewrite IH, elem_of_cons. split; [intros [Hx Hseen]; by split; [right|]|].
      intros [[->|Hx] Hseen]; [done|by split].
    + rewrite elem_of_cons, IH, not_elem_of_cons, elem_of_cons. split.
      * intros [->|(Hx & Hxy & Hseen)]; [by split; [left|]|by split; [right|]].
      * intros [[->|Hx] Hseen]; [by left|].
        destruct (decide (x = y)) as [->|Hxy]; [by left|by right].
Qed.

Lemma NoDup_Set_from {A} `{EqDecision A} (seen l : list A) : NoDup (Set_from seen l).
Proof.
  revert seen. induction l as [|y l IH]; intros seen; simpl; [constructor|].
  case_bool_decide; [apply IH|]. constructor; [|apply IH].
  rewrite elem_of_Set_from. intros [_ Hy]. apply Hy. left.
Qed.

Lemma filter_none {A} (f : A → bool) (l : list A) :
  (∀ y, y ∈ l → f y = false) → List.filter f l = [].
Proof.
  induction l as [|a l IH]; intros Hl; simpl; [done|].
  rewrite (Hl a) by left. apply IH. intros y Hy. apply Hl. by right.
Qed.

Lemma filter_only {A} (f : A → bool) (l : list A) (x : A) :
  NoDup l → x ∈ l → (∀ y, y ∈ l → f y = true ↔ y = x) → List.filter f l = [x].
Proof.
  induction l as [|a l IH]; intros Hnd Hx Hf; [inversion Hx|].
  apply NoDup_cons in Hnd as [Ha Hnd]. simpl.
  destruct (f a) eqn:Hfa.
  - apply Hf in Hfa as ->; [|left]. f_equal.
    apply filter_none. intros y Hy. destruct (f y) eqn:Hfy; [|done].
    apply Hf in Hfy; [|by right]. by subst.
  - apply elem_of_cons in Hx as [->|Hx].
    + rewrite (proj2 (Hf a ltac:(left)) eq_refl) in Hfa. discriminate.
    + apply IH; [done..|]. intros y Hy. apply Hf. by right.
Qed.

Lemma elem_of_option_values attribute vs x :
  x ∈ option_values attribute vs ↔ ∃ v, v ∈ vs ∧ attributes v !! attribute = x.
Proof.
  unfold option_values. rewrite elem_of_Set_from, list_elem_of_fmap. split.
  - intros [(v & -> & Hv) _]. by exists v.
  - intros (v & Hv & <-). split; [by exists v|]. intros H0. inversion H0.
Qed.

(** X14. The option buttons of one variation axis. No value is offered
    twice; a value is offered exactly when some variant of the offer
    carries it for the attribute; and for a selected variant of the offer
    exactly one button is highlighted, the one of its own value. *)
Theorem option_buttons (attribute : string) (vs : list Variant) :
  NoDup (option_values attribute vs) ∧
  (∀ x, x ∈ option_values attribute vs ↔ ∃ v, v ∈ vs ∧ attributes v !! attribute = x) ∧
  (∀ selected, selected ∈ vs →
     List.filter (isSelected selected attribute) (option_values attribute vs)
     = [attributes selected !! attribute]).
Proof.
  split; [apply NoDup_Set_from|]. split; [apply elem_of_option_values|].
  intros selected Hsel. apply filter_only.
  - apply NoDup_Set_from.
  - apply elem_of_option_values. by exists selected.
  - intros y _. unfold isSelected. rewrite bool_decide_eq_true. split; by intros ->.
Qed.

Example option_buttons_P4 :
  option_values "color" p4_variants = [Some "A"; Some "B"] ∧
  option_values "ram" p4_variants = [Some "8"; Some "16"] ∧
  option_values "size" p4_variants = [None] ∧
  List.filter (isSelected (sample_variant 3 "B" "8") "color") (option_values "color" p4_variants)
  = [Some "B"].
Proof. by vm_compute. Qed.

Lemma selectedVariant_elem st v :
  selectedVariant st = Some v →
  ∃ o, currentOffer st = Some o ∧
       find_variant (variants o) (selectedVariantId st) = Some v ∧ v ∈ variants o.
Proof.
  unfold selectedVariant. destruct (currentOffer st) as [o|]; [|done]. simpl.
  intros Hv. exists o. split_and!; [done..|]. by apply find_variant_elem in Hv as [? _].
Qed.

Lemma resolveVariant_carries vs cur attribute value w :
  w ∈ vs → attributes w !! attribute = Some value →
  attributes (resolveVariant vs cur attribute value) !! attribute = Some value.
Proof.
  intros Hw Hwv. unfold resolveVariant.
  destruct (find (matches_all _) vs) as [v|] eqn:H1.
  - apply find_first in H1 as (_ & _ & _ & Hv & _).
    apply matches_all_agrees in Hv. apply Hv. apply lookup_insert_eq.
  - destruct (find (matches_changed _ _) vs) as [v|] eqn:H2.
    + apply find_first in H2 as (_ & _ & _ & Hv & _). by apply matches_changed_true.
    + rewrite find_nothing in H2. apply H2 in Hw.
      by apply matches_changed_false in Hw.
Qed.

(** X15. A click on an offered option is honoured. On a rendered page,
    the click on a button of an axis selects a variant of the offer that
    carries the value of the button for the attribute of the axis, and
    the quantity is 1 again; when no two variants of the offer share an
    id, that variant is the selected variant of the next render. *)
Theorem offered_option_is_honoured
    (st : AppState) (o : ProductOffer) (cur : Variant) (attribute value : string) :
  is_set (currentProduct st) = true →
  currentOffer st = Some o →
  selectedVariant st = Some cur →
  Some value ∈ option_values attribute (variants o) →
  ∃ v st',
    handleVariantChange attribute value st = Normal st' ∧
    v ∈ variants o ∧ attributes v !! attribute = Some value ∧
    selectedVariantId st' = Some (v_id v) ∧ quantity st' = 1 ∧
    (NoDup (v_id <$> variants o) → selectedVariant st' = Some v).
Proof.
  intros Hp Ho Hcur Hoffered.
  apply selectedVariant_elem in Hcur as (o' & Ho' & Hfind & Hin).
  rewrite Ho in Ho'. injection Ho' as <-.
  apply elem_of_option_values in Hoffered as (w & Hw & Hwv).
  exists (resolveVariant (variants o) cur attribute value),
         (select_variant (resolveVariant (variants o) cur attribute value) st).
  split; [by apply handleVariantChange_resolves|].
  split; [by apply resolveVariant_elem|].
  split; [by apply (resolveVariant_carries _ _ _ _ w)|].
  split; [done|]. split; [done|].
  intros Hnd. unfold selectedVariant. simpl. rewrite Ho. simpl.
  apply find_variant_unique; [done|]. by apply resolveVariant_elem.
Qed.

Lemma offered_option_is_honoured_P5 :
  ∃ v st',
    handleVariantChange "color" "B" (ready_state (sample_offer p5_variants) 1) = Normal st' ∧
    v ∈ p5_variants ∧ attributes v !! "color" = Some "B" ∧
    selectedVariantId st' = Some (v_id v) ∧ quantity st' = 1 ∧
    (NoDup (v_id <$> p5_variants) → selectedVariant st' = Some v).
Proof.
  apply (offered_option_is_honoured (ready_state (sample_offer p5_variants) 1)
           (sample_offer p5_variants) (sample_variant 1 "A" "8") "color" "B").
  - reflexivity.
  - reflexivity.
  - reflexivity.
  - vm_compute. right. left.
Defined.

Lemma agrees_refl v : agrees (attributes v) v.
Proof. by intros k x. Qed.

Lemma resolveVariant_fixed vs cur attribute value :
  let v := resolveVariant vs cur attribute value in
  resolveVariant vs v attribute value = v.
Proof.
  intros v. subst v. unfold resolveVariant at 2 3.
  destruct (find (matches_all _) vs) as [v|] eqn:H1.
  - apply find_first in H1 as (pre & post & -> & Hv & Hpre).
    apply matches_all_agrees in Hv.
    assert (attributes v !! attribute = Some value) as Hvv
      by (apply Hv; apply lookup_insert_eq).
    unfold resolveVariant, newAttributes. rewrite (insert_id _ _ _ Hvv).
    rewrite find_first_inv; [done| |].
    + apply matches_all_agrees, agrees_refl.
    + intros y Hy. apply matches_all_false. intros Hyv.
      specialize (Hpre y Hy). apply matches_all_false in Hpre. apply Hpre.
      intros k x Hk. by apply Hyv, Hv.
  - destruct (find (matches_changed _ _) vs) as [v|] eqn:H2.
    + apply find_first in H2 as (pre & post & -> & Hv & Hpre).
      apply matches_changed_true in Hv.
      unfold resolveVariant, newAttributes. rewrite (insert_id _ _ _ Hv).
      rewrite find_first_inv; [done| |].
      * apply matches_all_agrees, agrees_refl.
      * intros y Hy. apply matches_all_false. intros Hyv.
        specialize (Hpre y Hy). apply matches_changed_false in Hpre. by apply Hpre, Hyv.
    + unfold resolveVariant. by rewrite H1, H2.
Qed.

(** X16. Clicking the same option a second time changes nothing more.
    When no two variants of the offer share an id, the state that a call
    of the handler returns is a fixed point of the same call. *)
Theorem handleVariantChange_twice
    (attribute value : string) (st st1 : AppState) :
  (∀ o, currentOffer st = Some o → NoDup (v_id <$> variants o)) →
  handleVariantChange attribute value st = Normal st1 →
  handleVariantChange attribute value st1 = Normal st1.
Proof.
  intros Hnd. unfold handleVariantChange at 1.
  destruct (is_set (currentProduct st)) eqn:Hp; simpl;
    [|intros [= <-]; unfold handleVariantChange; by rewrite Hp].
  destruct (currentOffer st) as [o|] eqn:Ho;
    [|intros [= <-]; unfold handleVariantChange; by rewrite Hp, Ho].
  destruct (find_variant (variants o) (selectedVariantId st)) as [cur|] eqn:Hcur;
    [|intros [= <-]; unfold handleVariantChange; by rewrite Hp, Ho, Hcur].
  intros [= <-].
  apply find_variant_elem in Hcur as [Hin _].
  rewrite (handleVariantChange_resolves _ o (resolveVariant (variants o) cur attribute value));
    [|done|done|].
  - by rewrite resolveVariant_fixed.
  - simpl. apply find_variant_unique; [by apply Hnd|]. by apply resolveVariant_elem.
Qed.

Lemma handleVariantChange_twice_P5 :
  handleVariantChange "color" "B"
    (select_variant (sample_variant 2 "B" "16") (ready_state (sample_offer p5_variants) 1))
  = Normal (select_variant (sample_variant 2 "B" "16")
              (ready_state (sample_offer p5_variants) 1)).
Proof.
  apply (handleVariantChange_twice "color" "B" (ready_state (sample_offer p5_variants) 1)).
  - intros o [= <-]. apply (bool_decide_unpack _). by vm_compute.
  - reflexivity.
Defined.

(** X17. Clicking the highlighted option. When the selected variant
    already carries the value of the button and no other variant of the
    offer carries all the attributes of the selected one, the click keeps
    the variant and only puts the quantity back to 1. Without the second
    condition the click can move the selection: with a first variant
    {color: A, ram: 8} and a selected second variant that has the color A
    and no ram, the click on A selects the first. *)
Theorem highlighted_option_keeps_variant
    (st : AppState) (o : ProductOffer) (cur : Variant) (attribute value : string) :
  is_set (currentProduct st) = true →
  currentOffer st = Some o →
  selectedVariant st = Some cur →
  attributes cur !! attribute = Some value →
  (∀ u, u ∈ variants o → agrees (attributes cur) u → u = cur) →
  handleVariantChange attribute value st = Normal (handleQuantitySelect 1 st).
Proof.
  intros Hp Ho Hcur Hvalue Honly.
  apply selectedVariant_elem in Hcur as (o' & Ho' & Hfind & Hin).
  rewrite Ho in Ho'. injection Ho' as <-.
  rewrite (handleVariantChange_resolves st o cur) by done.
  assert (resolveVariant (variants o) cur attribute value = cur) as ->.
  { unfold resolveVariant, newAttributes. rewrite (insert_id _ _ _ Hvalue).
    destruct (find (matches_all _) (variants o)) as [v|] eqn:H1.
    - apply find_first in H1 as (pre & post & Hsplit & Hv & _).
      apply Honly; [|by apply matches_all_agrees].
      rewrite Hsplit. apply elem_of_app. right. left.
    - rewrite find_nothing in H1. apply H1 in Hin.
      apply matches_all_false in Hin. destruct Hin. apply agrees_refl. }
  apply find_variant_elem in Hfind as [_ Hsel].
  unfold select_variant, handleQuantitySelect. by rewrite Hsel.
Qed.

Lemma highlighted_option_keeps_variant_P4 :
  handleVariantChange "ram" "8" (ready_state (sample_offer p4_variants) 1)
  = Normal (handleQuantitySelect 1 (ready_state (sample_offer p4_variants) 1)).
Proof.
  apply (highlighted_option_keeps_variant (ready_state (sample_offer p4_variants) 1)
           (sample_offer p4_variants) (sample_variant 1 "A" "8") "ram" "8").
  - reflexivity.
  - reflexivity.
  - reflexivity.
  - reflexivity.
  - intros u Hu Hag. apply matches_all_agrees in Hag.
    repeat (apply elem_of_cons in Hu as [->|Hu]);
      [done|vm_compute in Hag; discriminate Hag..|inversion Hu].
Defined.

(** The click on the highlighted option that moves the selection. *)
Example highlighted_option_moves :
  let bare := {| v_id := 2; attributes := {[ "color" := "A" ]}; v_title := EmptyString;
                 imageIndex := 0; pricing := ∅; stock := 1 |} in
  let st := ready_state (sample_offer [sample_variant 1 "A" "8"; bare]) 2 in
  selectedVariant st = Some bare ∧
  isSelected bare "color" (Some "A") = true ∧
  handleVariantChange "color" "A" st = Normal (select_variant (sample_variant 1 "A" "8") st).
Proof. split_and!; reflexivity. Qed.

(* ===================================================================== *)
(** * How the question handlers compose *)
(* ===================================================================== *)

Lemma with_questions_same st : with_questions (currentQuestions st) st = st.
Proof. by destruct st. Qed.

Lemma with_questions_eq qs qs' st : qs = qs' → with_questions qs st = with_questions qs' st.
Proof. by intros ->. Qed.

Lemma filter_all {A} (P : A → Prop) `{∀ x, Decision (P x)} (l : list A) :
  (∀ x, x ∈ l → P x) → filter P l = l.
Proof.
  induction l as [|x l IH]; intros Hl; [done|].
  rewrite filter_cons, decide_True by (apply Hl; left).
  f_equal. apply IH. intros y Hy. apply Hl. by right.
Qed.

Lemma map_answer_absent (T : Z) (a : string) (qs : list QA) :
  (∀ q, q ∈ qs → q_id q ≠ T) →
  map (λ q, if bool_decide (q_id q = T) then set_answer a q else q) qs = qs.
Proof.
  induction qs as [|q qs IH]; intros Hqs; simpl; [done|].
  rewrite bool_decide_eq_false_2 by (apply Hqs; left).
  f_equal. apply IH. intros y Hy. apply Hqs. by right.
Qed.

(** X18. An id that no question of the list has. Updating the answer of
    such an id and deleting it leave the state as it is. So the answer to
    a question is lost without a trace when a detail batch that does not
    carry the question resolves between the moment the question is added
    and the moment its answer arrives: the state is the one the batch
    gives with no question asked. *)
Theorem absent_question_untouched (st : AppState) (T : Z) (a : string) :
  (∀ q, q ∈ currentQuestions st → q_id q ≠ T) →
  handleUpdateQuestionAnswer T a st = st ∧
  handleDeleteQuestion T st = st ∧
  ∀ requested r text,
    (∀ q, q ∈ questions r → q_id q ≠ T) →
    handleUpdateQuestionAnswer T a
      (fetchProductDetails_fulfilled requested r
         (handleAddQuestion (optimistic_question T text) st))
    = fetchProductDetails_fulfilled requested r st.
Proof.
  intros Habsent. split_and!.
  - unfold handleUpdateQuestionAnswer. rewrite map_answer_absent by done.
    apply with_questions_same.
  - unfold handleDeleteQuestion. rewrite filter_all by done.
    apply with_questions_same.
  - intros requested r text Hr.
    unfold handleUpdateQuestionAnswer. rewrite map_answer_absent; [done|].
    intros q Hq. simpl in Hq. apply Hr.
    by rewrite (Array_sort_Permutation by_id_descending) in Hq.
Qed.

Lemma absent_question_untouched_P8 :
  handleUpdateQuestionAnswer 9 "late" p8_state = p8_state ∧
  handleDeleteQuestion 9 p8_state = p8_state ∧
  ∀ requested r text,
    (∀ q, q ∈ questions r → q_id q ≠ 9) →
    handleUpdateQuestionAnswer 9 "late"
      (fetchProductDetails_fulfilled requested r
         (handleAddQuestion (optimistic_question 9 text) p8_state))
    = fetchProductDetails_fulfilled requested r p8_state.
Proof.
  apply (absent_question_untouched p8_state 9 "late").
  intros q Hq. simpl in Hq.
  repeat (apply elem_of_cons in Hq as [->|Hq]); [discriminate..|inversion Hq].
Defined.

Lemma map_answer_twice (T : Z) (a b : string) (qs : list QA) :
  map (λ q, if bool_decide (q_id q = T) then set_answer b q else q)
      (map (λ q, if bool_decide (q_id q = T) then set_answer a q else q) qs)
  = map (λ q, if bool_decide (q_id q = T) then set_answer b q else q) qs.
Proof.
  rewrite map_map. apply map_ext. intros q. cbv beta.
  destruct (bool_decide (q_id q = T)) eqn:Hq; simpl; by rewrite Hq.
Qed.

Lemma map_answer_comm (T U : Z) (a b : string) (qs : list QA) :
  T ≠ U →
  map (λ q, if bool_decide (q_id q = T) then set_answer a q else q)
      (map (λ q, if bool_decide (q_id q = U) then set_answer b q else q) qs)
  = map (λ q, if bool_decide (q_id q = U) then set_answer b q else q)
        (map (λ q, if bool_decide (q_id q = T) then set_answer a q else q) qs).
Proof.
  intros HTU. rewrite !map_map. apply map_ext. intros q. cbv beta.
  destruct (bool_decide (q_id q = T)) eqn:Hq, (bool_decide (q_id q = U)) eqn:Hq';
    simpl; rewrite ?Hq, ?Hq'; try done.
  apply bool_decide_eq_true in Hq, Hq'. congruence.
Qed.

Lemma filter_map_ids (f : QA → QA) (U : Z) (qs : list QA) :
  (∀ q, q_id (f q) = q_id q) →
  filter (λ q, q_id q ≠ U) (map f qs) = map f (filter (λ q, q_id q ≠ U) qs).
Proof.
  intros Hf. induction qs as [|q qs IH]; [done|].
  cbn [map]. rewrite !filter_cons, IH.
  destruct (decide (q_id (f q) ≠ U)) as [Hd|Hd]; rewrite Hf in Hd.
  - by rewrite decide_True.
  - by rewrite decide_False.
Qed.

Lemma filter_map_answer_same (T : Z) (a : string) (qs : list QA) :
  filter (λ q, q_id q ≠ T)
         (map (λ q, if bool_decide (q_id q = T) then set_answer a q else q) qs)
  = filter (λ q, q_id q ≠ T) qs.
Proof.
  induction qs as [|q qs IH]; [done|].
  cbn [map]. rewrite !filter_cons, IH.
  destruct (decide (q_id q = T)) as [Hq|Hq].
  - rewrite bool_decide_eq_true_2 by done.
    rewrite !decide_False; [done|by intros []|by intros []].
  - by rewrite bool_decide_eq_false_2 by done.
Qed.

Lemma filter_filter_ids (T U : Z) (qs : list QA) :
  filter (λ q, q_id q ≠ T) (filter (λ q, q_id q ≠ U) qs)
  = filter (λ q, q_id q ≠ U) (filter (λ q, q_id q ≠ T) qs).
Proof.
  induction qs as [|q qs IH]; [done|].
  rewrite !filter_cons.
  destruct (decide (q_id q ≠ U)), (decide (q_id q ≠ T));
    rewrite ?filter_cons, ?decide_True, ?decide_False by done; by rewrite ?IH.
Qed.

(** X19. How the three question handlers compose. Of two answers to one
    id the later stands; deleting an id after answering it is deleting
    it; an answer that arrives after its question was deleted does not
    bring the question back; deleting the id of a question just added
    undoes the addition, and gives the state back when no other question
    has that id; an answer and a deletion, two deletions, and two answers
    to different ids can be applied in either order. *)
Theorem question_handlers_compose (st : AppState) (T U : Z) (a b : string) (q : QA) :
  handleUpdateQuestionAnswer T b (handleUpdateQuestionAnswer T a st)
  = handleUpdateQuestionAnswer T b st ∧
  handleDeleteQuestion T (handleUpdateQuestionAnswer T a st) = handleDeleteQuestion T st ∧
  handleUpdateQuestionAnswer T a (handleDeleteQuestion T st) = handleDeleteQuestion T st ∧
  handleDeleteQuestion (q_id q) (handleAddQuestion q st) = handleDeleteQuestion (q_id q) st ∧
  ((∀ q', q' ∈ currentQuestions st → q_id q' ≠ q_id q) →
   handleDeleteQuestion (q_id q) (handleAddQuestion q st) = st) ∧
  handleUpdateQuestionAnswer T a (handleDeleteQuestion U st)
  = handleDeleteQuestion U (handleUpdateQuestionAnswer T a st) ∧
  handleDeleteQuestion T (handleDeleteQuestion U st)
  = handleDeleteQuestion U (handleDeleteQuestion T st) ∧
  (T ≠ U →
   handleUpdateQuestionAnswer T a (handleUpdateQuestionAnswer U b st)
   = handleUpdateQuestionAnswer U b (handleUpdateQuestionAnswer T a st)).
Proof.
  assert (handleDeleteQuestion (q_id q) (handleAddQuestion q st)
          = handleDeleteQuestion (q_id q) st) as Hundo.
  { unfold handleDeleteQuestion, handleAddQuestion. cbn [currentQuestions with_questions].
    by rewrite filter_cons, decide_False by (by intros []). }
  split_and!.
  - unfold handleUpdateQuestionAnswer. cbn [currentQuestions with_questions].
    by rewrite map_answer_twice.
  - unfold handleDeleteQuestion, handleUpdateQuestionAnswer.
    cbn [currentQuestions with_questions]. by rewrite filter_map_answer_same.
  - unfold handleDeleteQuestion, handleUpdateQuestionAnswer.
    cbn [currentQuestions with_questions].
    rewrite map_answer_absent; [done|].
    intros q' Hq'. by apply list_elem_of_filter in Hq' as [? _].
  - done.
  - intros Hfresh. rewrite Hundo. unfold handleDeleteQuestion.
    rewrite filter_all by done. apply with_questions_same.
  - unfold handleDeleteQuestion, handleUpdateQuestionAnswer.
    cbn [currentQuestions with_questions].
    rewrite filter_map_ids; [done|]. intros q'. by case_bool_decide.
  - unfold handleDeleteQuestion. cbn [currentQuestions with_questions].
    by rewrite filter_filter_ids.
  - intros HTU. unfold handleUpdateQuestionAnswer. cbn [currentQuestions with_questions].
    by rewrite map_answer_comm.
Qed.

Lemma newest_first_map (f : QA → QA) (qs : list QA) :
  (∀ q, q_id (f q) = q_id q) → newest_first qs → newest_first (map f qs).
Proof.
  intros Hf. induction 1 as [|q qs Hqs IH Hq]; simpl; constructor; [done|].
  apply Forall_fmap. eapply Forall_impl; [done|]. simpl. intros x. by rewrite !Hf.
Qed.

Lemma newest_first_filter (P : QA → Prop) `{∀ x, Decision (P x)} (qs : list QA) :
  newest_first qs → newest_first (filter P qs).
Proof.
  induction 1 as [|q qs Hqs IH Hq]; [constructor|].
  rewrite filter_cons. destruct (decide (P q)); [|done].
  constructor; [done|]. apply Forall_forall. intros x [_ Hx]%list_elem_of_filter.
  rewrite Forall_forall in Hq. by apply Hq.
Qed.

Lemma newest_first_cons (q : QA) (qs : list QA) :
  newest_first qs → (∀ q0, head qs = Some q0 → q_id q0 <= q_id q) →
  newest_first (q :: qs).
Proof.
  intros Hqs Hhead. constructor; [done|].
  destruct Hqs as [|q0 qs Hqs Hq0]; [constructor|].
  specialize (Hhead q0 eq_refl). constructor; [done|].
  eapply Forall_impl; [done|]. simpl. intros x ?. lia.
Qed.

(** X20. The order of the questions under the handlers. When the ids of
    the list never increase from an entry to a later one, they still do
    not after an answer is updated and after a question is deleted, and
    after a question is added whose id is not below the id of the first
    entry. *)
Theorem newest_first_kept (st : AppState) :
  newest_first (currentQuestions st) →
  (∀ T a, newest_first (currentQuestions (handleUpdateQuestionAnswer T a st))) ∧
  (∀ T, newest_first (currentQuestions (handleDeleteQuestion T st))) ∧
  (∀ q, (∀ q0, head (currentQuestions st) = Some q0 → q_id q0 <= q_id q) →
        newest_first (currentQuestions (handleAddQuestion q st))).
Proof.
  intros Hst. split_and!.
  - intros T a. apply newest_first_map; [|done]. intros q. by case_bool_decide.
  - intros T. by apply newest_first_filter.
  - intros q Hq. by apply newest_first_cons.
Qed.

Lemma newest_first_kept_P8 :
  (∀ T a, newest_first (currentQuestions (handleUpdateQuestionAnswer T a p8_state))) ∧
  (∀ T, newest_first (currentQuestions (handleDeleteQuestion T p8_state))) ∧
  (∀ q, (∀ q0, head (currentQuestions p8_state) = Some q0 → q_id q0 <= q_id q) →
        newest_first (currentQuestions (handleAddQuestion q p8_state))).
Proof.
  apply (newest_first_kept p8_state).
  repeat constructor; simpl; lia.
Defined.

(* ===================================================================== *)
(** * The quantity and the stock *)
(* ===================================================================== *)

Lemma QuantitySelector_options stock options more :
  QuantitySelector stock = Some (Dropdown options more) →
  options = seqZ 1 (Z.min stock maxDropdownItems) ∧
  more = bool_decide (maxDropdownItems < stock).
Proof.
  unfold QuantitySelector. case_bool_decide; [done|].
  destruct (Z.min stock maxDropdownItems <? 0); [done|]. by intros [= <- <-].
Qed.

Lemma pickable_within st q :
  q ∈ pickable st → ∃ v, selectedVariant st = Some v ∧ 1 <= q <= stock v.
Proof.
  unfold pickable. destruct (selectedVariant st) as [v|]; [|intros H; inversion H].
  unfold stock_block. destruct (0 <? stock v); [|intros H; inversion H].
  destruct (QuantitySelector (stock v)) as [[|options more]|] eqn:Hsel; simpl;
    [intros H; inversion H| |intros H; inversion H].
  apply QuantitySelector_options in Hsel as [-> _].
  rewrite elem_of_seqZ. unfold maxDropdownItems. intros Hq. exists v. split; [done|]. lia.
Qed.

(** X21. What the purchase box offers for a stock. The box is rendered
    for every stock, without an error: the out-of-stock text exactly for
    a stock of 0 or less, the last-one text exactly for a stock of 1, and
    otherwise the list of the quantities 1, 2, ... up to the stock and up
    to 6, each of them within the stock, closed by the entry for more
    exactly when the stock is above 6. The selector itself fails on a
    negative stock, which the box never hands to it; for such a stock the
    box shows the out-of-stock text with its two buttons enabled. *)
Theorem stock_block_spec (stock : Z) :
  ∃ block,
    stock_block stock = Some block ∧
    (block = SinStock ↔ stock <= 0) ∧
    (block = Quantity LastOne ↔ stock = 1) ∧
    (∀ options more,
        block = Quantity (Dropdown options more) →
        options = seqZ 1 (Z.min stock 6) ∧
        (∀ q, q ∈ options ↔ 1 <= q <= stock ∧ q <= 6) ∧
        (more = true ↔ 6 < stock)) ∧
    (QuantitySelector stock = None ↔ stock < 0) ∧
    (stock < 0 → block = SinStock ∧ buttons_disabled stock = false).
Proof.
  assert (QuantitySelector stock = None ↔ stock < 0) as Hfail.
  { unfold QuantitySelector, maxDropdownItems. case_bool_decide; [split; [done|lia]|].
    destruct (Z.ltb_spec (Z.min stock 6) 0); split; (done || lia). }
  unfold stock_block. destruct (Z.ltb_spec 0 stock) as [Hpos|Hpos].
  - destruct (decide (stock = 1)) as [->|H1].
    + exists (Quantity LastOne). split; [done|].
      split; [split; [done|lia]|]. split; [done|].
      split; [intros options more [=]|]. split; [done|lia].
    + exists (Quantity (Dropdown (seqZ 1 (Z.min stock 6)) (bool_decide (6 < stock)))).
      split.
      { unfold QuantitySelector, maxDropdownItems.
        rewrite bool_decide_eq_false_2 by done.
        by destruct (Z.ltb_spec (Z.min stock 6) 0); [lia|]. }
      split; [split; [done|lia]|]. split; [split; [done|lia]|].
      split; [|split; [done|lia]].
      intros options more [= <- <-]. split; [done|]. split.
      * intros q. rewrite elem_of_seqZ. lia.
      * apply bool_decide_eq_true.
  - exists SinStock. split; [done|]. split; [done|].
    split; [split; [done|lia]|]. split; [by intros options more [=]|].
    split; [done|]. intros Hneg. split; [done|].
    unfold buttons_disabled. apply bool_decide_eq_false. lia.
Qed.

Example stock_block_samples :
  stock_block 0 = Some SinStock ∧
  stock_block 1 = Some (Quantity LastOne) ∧
  stock_block 4 = Some (Quantity (Dropdown [1; 2; 3; 4] false)) ∧
  stock_block 9 = Some (Quantity (Dropdown [1; 2; 3; 4; 5; 6] true)) ∧
  stock_block (-2) = Some SinStock ∧ buttons_disabled (-2) = false ∧
  QuantitySelector (-2) = None.
Proof. by vm_compute. Qed.

(* ===================================================================== *)
(** * The selection on every page that can be reached *)
(* ===================================================================== *)

Lemma selection_ok_frame st st' :
  currentOffer st' = currentOffer st →
  selectedVariantId st' = selectedVariantId st →
  quantity st' = quantity st →
  selection_ok st → selection_ok st'.
Proof.
  unfold selection_ok, selectedVariant. intros -> -> ->. done.
Qed.

Lemma selection_ok_fulfilled requested r st :
  selection_ok (fetchProductDetails_fulfilled requested r st).
Proof.
  split.
  - intros o [= <-] Hne. unfold selectedVariant. simpl.
    destruct (variants (offer r)) as [|v vs] eqn:Hvs; [done|].
    rewrite find_variant_head. by eexists.
  - simpl. intros v _ Hstock. lia.
Qed.

Lemma selection_ok_rejected requested errorMessage st :
  selection_ok (fetchProductDetails_rejected requested errorMessage st).
Proof. split; [by intros o [=]|]. intros v. by unfold selectedVariant. Qed.

Lemma selection_ok_handleVariantChange attribute value st st' :
  handleVariantChange attribute value st = Normal st' →
  selection_ok st → selection_ok st'.
Proof.
  unfold handleVariantChange.
  destruct (negb (is_set (currentProduct st))); [by intros [= <-]|].
  destruct (currentOffer st) as [o|] eqn:Ho; [|by intros [= <-]].
  destruct (find_variant (variants o) (selectedVariantId st)) as [cur|] eqn:Hcur;
    [|by intros [= <-]].
  intros [= <-] _. apply find_variant_elem in Hcur as [Hin _]. split.
  - intros o' Ho' _. apply (selectedVariant_select_variant st o); [done|].
    by apply resolveVariant_elem.
  - simpl. intros v _ Hstock. lia.
Qed.

Lemma selection_ok_handleQuantitySelect q st :
  q ∈ pickable st → selection_ok st → selection_ok (handleQuantitySelect q st).
Proof.
  intros (v & Hv & Hq)%pickable_within [Hsome _]. split; [done|].
  intros v' Hv' _. change (selectedVariant st = Some v') in Hv'.
  rewrite Hv in Hv'. by injection Hv' as <-.
Qed.

Lemma selection_ok_step pg ev pg' :
  step pg ev = Some pg' → selection_ok (app pg) → selection_ok (app pg').
Proof.
  destruct ev as [id|id r|id errorMessage]; simpl.
  - destruct (_ || _); intros [= <-]; by apply selection_ok_frame.
  - case_bool_decide; [|done]. intros [= <-] _. apply selection_ok_fulfilled.
  - case_bool_decide; [|done]. intros [= <-] _. apply selection_ok_rejected.
Qed.

Lemma selection_ok_act pg a pg' :
  act pg a = Some pg' → selection_ok (app pg) → selection_ok (app pg').
Proof.
  destruct a as [ev|attribute value|q|newQuestion|T a|T]; simpl.
  - apply selection_ok_step.
  - destruct (handleVariantChange attribute value (app pg)) as [st'|] eqn:Hcall; [|done].
    intros [= <-]. by apply (selection_ok_handleVariantChange attribute value).
  - case_bool_decide; [|done]. intros [= <-]. by apply selection_ok_handleQuantitySelect.
  - intros [= <-]. by apply selection_ok_frame.
  - intros [= <-]. by apply selection_ok_frame.
  - intros [= <-]. by apply selection_ok_frame.
Qed.

(** X22. The selection is sound on every page that can be reached.
    Starting from a page where it holds (the first render is one),
    whatever products are selected, however the detail batches settle,
    and whatever options and quantities are clicked and questions are
    asked, answered and deleted: an offer with variants that is shown has
    a selected variant, and the quantity is at least 1 and at most the
    stock of the selected variant whenever that variant is in stock. *)
Theorem selection_stays_valid (pg0 pg : Page) (acts : list action) :
  selection_ok (app pg0) →
  perform pg0 acts = Some pg →
  selection_ok (app pg).
Proof.
  revert pg0. induction acts as [|a acts IH]; intros pg0 H0; simpl.
  - by intros [= <-].
  - destruct (act pg0 a) as [pg1|] eqn:Hact; [|done]. simpl.
    apply IH. by apply (selection_ok_act pg0 a).
Qed.

Lemma selection_ok_initial : selection_ok initial_state.
Proof. split; [intros o Ho; discriminate Ho|]. intros v Hv. discriminate Hv. Qed.

Lemma selection_stays_valid_session :
  perform initial_page session = Some session_end ∧
  selectedVariant (app session_end) = Some (stocked_variant 70 "A" 5) ∧
  quantity (app session_end) = 5 ∧
  selection_ok (app session_end).
Proof.
  split; [by vm_compute|]. split; [by vm_compute|]. split; [done|].
  apply (selection_stays_valid initial_page session_end session).
  - apply selection_ok_initial.
  - by vm_compute.
Defined.

(* ===================================================================== *)
(** * The two columns of ProductFeatures.tsx *)
(* ===================================================================== *)

Lemma midIndex_bounds (n : nat) : (n <= 2 * midIndex n <= S n)%nat.
Proof.
  unfold midIndex. induction n as [n IH] using lt_wf_ind.
  destruct n as [|[|n]]; [simpl; lia..|].
  specialize (IH n ltac:(lia)).
  change (Nat.div2 (S (S (S n)))) with (S (Nat.div2 (S n))). lia.
Qed.

(** X23. The highlighted features are split into two columns that, one
    after the other, are the list itself; the first column has as many
    entries as the second, or one more. *)
Theorem feature_columns_balanced {A : Type} (highlighted : list A) :
  (feature_columns highlighted).1 ++ (feature_columns highlighted).2 = highlighted ∧
  (length (feature_columns highlighted).2 <= length (feature_columns highlighted).1
   <= length (feature_columns highlighted).2 + 1)%nat.
Proof.
  unfold feature_columns. simpl. split; [apply take_drop|].
  pose proof (midIndex_bounds (length highlighted)).
  rewrite length_take, length_drop. lia.
Qed.

Example feature_columns_five :
  feature_columns ["a"; "b"; "c"; "d"; "e"] = (["a"; "b"; "c"], ["d"; "e"]) ∧
  feature_columns (@nil string) = ([], []).
Proof. split; reflexivity. Qed.

(* ===================================================================== *)
(** * The error screen *)
(* ===================================================================== *)

Lemma render_error st :
  truthy_string (error st) = true →
  render st = ErrorScreen (default EmptyString (error st)).
Proof. intros He. unfold render. rewrite He. simpl. by rewrite andb_false_r. Qed.

Lemma handleVariantChange_error attribute value st st' :
  handleVariantChange attribute value st = Normal st' → error st' = error st.
Proof.
  unfold handleVariantChange.
  destruct (negb (is_set (currentProduct st))); [by intros [= <-]|].
  destruct (currentOffer st) as [o|]; [|by intros [= <-]].
  destruct (find_variant (variants o) (selectedVariantId st)); by intros [= <-].
Qed.

Lemma act_keeps_error pg a pg' :
  act pg a = Some pg' →
  (∀ id, a ≠ Effect (SelectProduct id)) →
  truthy_string (error (app pg)) = true →
  truthy_string (error (app pg')) = true ∧
  ((∀ id errorMessage, a ≠ Effect (BatchRejected id errorMessage)) →
   error (app pg') = error (app pg)).
Proof.
  intros Hact Hsel Herr.
  destruct a as [[id|id r|id errorMessage]|attribute value|q|newQuestion|T a|T];
    simpl in Hact.
  - by destruct (Hsel id).
  - case_bool_decide; [|done]. by injection Hact as <-.
  - case_bool_decide; [|done]. injection Hact as <-. split; [done|].
    intros Hne. by destruct (Hne id errorMessage).
  - destruct (handleVariantChange attribute value (app pg)) as [st'|] eqn:Hcall; [|done].
    injection Hact as <-. apply handleVariantChange_error in Hcall. simpl.
    by rewrite Hcall.
  - case_bool_decide; [|done]. by injection Hact as <-.
  - by injection Hact as <-.
  - by injection Hact as <-.
  - by injection Hact as <-.
Qed.

(** X24. The error screen is final. Once an error message is set, the
    page shows the error screen, and it still shows an error screen after
    any batches settle, answers arrive and handlers run, as long as no
    other product is selected (the error screen offers no product to
    select, only a reload); the message is the same one unless a batch
    rejected in between. A batch that rejects sets such a message. *)
Theorem error_screen_is_final (pg pg' : Page) (acts : list action) :
  truthy_string (error (app pg)) = true →
  (∀ id, Effect (SelectProduct id) ∉ acts) →
  perform pg acts = Some pg' →
  (∃ message, render (app pg) = ErrorScreen message) ∧
  (∃ message, render (app pg') = ErrorScreen message) ∧
  ((∀ id errorMessage, Effect (BatchRejected id errorMessage) ∉ acts) →
   render (app pg') = render (app pg)) ∧
  (∀ requested errorMessage st,
      truthy_string (error (fetchProductDetails_rejected requested errorMessage st)) = true).
Proof.
  intros Herr Hsel Hrun.
  assert (truthy_string (error (app pg')) = true ∧
          ((∀ id errorMessage, Effect (BatchRejected id errorMessage) ∉ acts) →
           error (app pg') = error (app pg))) as [Herr' Hsame].
  { revert pg Herr Hrun. induction acts as [|a acts IH]; intros pg Herr Hrun; simpl in Hrun.
    - by injection Hrun as <-.
    - destruct (act pg a) as [pg1|] eqn:Hact; [|done]. simpl in Hrun.
      destruct (act_keeps_error pg a pg1 Hact) as [Herr1 Hsame1]; [|done|].
      { intros id ->. apply (Hsel id). left. }
      destruct (IH (λ id Hin, Hsel id (list_elem_of_further _ _ _ Hin)) pg1 Herr1 Hrun)
        as [Herr' Hsame].
      split; [done|]. intros Hrej. rewrite Hsame, Hsame1; [done| |].
      + intros id errorMessage ->. apply (Hrej id errorMessage). left.
      + intros id errorMessage Hin. apply (Hrej id errorMessage). by right. }
  split; [eexists; by apply render_error|].
  split; [eexists; by apply render_error|].
  split; [|done].
  intros Hrej. rewrite !render_error by done. by rewrite Hsame.
Qed.

Lemma error_screen_is_final_sample :
  (∃ message, render (app failed_page) = ErrorScreen message) ∧
  (∃ message, render (app failed_end) = ErrorScreen message) ∧
  ((∀ id errorMessage, Effect (BatchRejected id errorMessage) ∉ late_actions) →
   render (app failed_end) = render (app failed_page)) ∧
  (∀ requested errorMessage st,
      truthy_string (error (fetchProductDetails_rejected requested errorMessage st)) = true).
Proof.
  apply (error_screen_is_final failed_page failed_end late_actions).
  - reflexivity.
  - intros id Hin. unfold late_actions in Hin.
    repeat (apply elem_of_cons in Hin as [Hin|Hin]; [discriminate Hin|]). inversion Hin.
  - by vm_compute.
Defined.

Example error_screen_after_late_batch :
  selectedVariant (app failed_end) = Some (stocked_variant 71 "B" 1) ∧
  render (app failed_end)
  = ErrorScreen "Could not load product information. Request failed with status 500".
Proof. split; by vm_compute. Qed.
